(** * The HotSpot service thread (runtime/serviceThread.cpp)

    A shallow embedding of [ServiceThread]: the wait condition of the
    worker loop, the dispatch phase, the producer entry point
    [enqueue_deferred_event], the root-scan hook [oops_do] and
    [initialize], as a labelled transition system whose atomic steps are
    the statements of the source, with the [Service_lock] monitor kept as
    an explicit owner field. *)

From Stdlib Require Import String.
From stdpp Require Import base tactics option list.

Set Default Proof Using "Type".
Local Open Scope list_scope.

(** ** The polled work sources *)

(** The eight predicates of the [while] condition of
    [service_thread_entry], in the order the condition lists them. *)
Inductive Source : Type :=
| Sensors                    (* LowMemoryDetector::has_pending_requests *)
| JvmtiEvents                (* _jvmti_service_queue.has_events *)
| GCNotification             (* GCNotifier::has_event *)
| DCmdNotification           (* DCmdFactory::has_pending_jmx_notification *)
| StringTableWork            (* StringTable::has_work *)
| SymbolTableWork            (* SymbolTable::has_work *)
| ResolvedMethodTableWork    (* ResolvedMethodTable::has_work *)
| ProtectionDomainTableWork. (* SystemDictionary::pd_cache_table()->has_work *)

#[global] Instance Source_eq_dec : EqDecision Source.
Proof. solve_decision. Defined.

Definition condition_order : list Source :=
  [Sensors; JvmtiEvents; GCNotification; DCmdNotification; StringTableWork;
   SymbolTableWork; ResolvedMethodTableWork; ProtectionDomainTableWork].

(** The order of the [if] statements after the locked block. *)
Definition dispatch_order : list Source :=
  [StringTableWork; SymbolTableWork; JvmtiEvents; Sensors; GCNotification;
   DCmdNotification; ResolvedMethodTableWork; ProtectionDomainTableWork].

(** ** The locals of one loop iteration *)

(** The nine [bool] locals declared at the top of the loop body. *)
Record Flags : Type := mkFlags {
  sensors_changed : bool;
  has_jvmti_events : bool;
  has_gc_notification_event : bool;
  has_dcmd_notification_event : bool;
  acs_notify : bool;
  stringtable_work : bool;
  symboltable_work : bool;
  resolved_method_table_work : bool;
  protection_domain_table_work : bool
}.

(** All nine are initialised to [false] on every iteration. *)
Definition initial_flags : Flags :=
  mkFlags false false false false false false false false false.

(** The local a source's predicate is assigned to. *)
Definition flag (f : Flags) (src : Source) : bool :=
  match src with
  | Sensors => sensors_changed f
  | JvmtiEvents => has_jvmti_events f
  | GCNotification => has_gc_notification_event f
  | DCmdNotification => has_dcmd_notification_event f
  | StringTableWork => stringtable_work f
  | SymbolTableWork => symboltable_work f
  | ResolvedMethodTableWork => resolved_method_table_work f
  | ProtectionDomainTableWork => protection_domain_table_work f
  end.

Definition assign (src : Source) (v : bool) (f : Flags) : Flags :=
  match src with
  | Sensors =>
      mkFlags v (has_jvmti_events f) (has_gc_notification_event f)
        (has_dcmd_notification_event f) (acs_notify f) (stringtable_work f)
        (symboltable_work f) (resolved_method_table_work f)
        (protection_domain_table_work f)
  | JvmtiEvents =>
      mkFlags (sensors_changed f) v (has_gc_notification_event f)
        (has_dcmd_notification_event f) (acs_notify f) (stringtable_work f)
        (symboltable_work f) (resolved_method_table_work f)
        (protection_domain_table_work f)
  | GCNotification =>
      mkFlags (sensors_changed f) (has_jvmti_events f) v
        (has_dcmd_notification_event f) (acs_notify f) (stringtable_work f)
        (symboltable_work f) (resolved_method_table_work f)
        (protection_domain_table_work f)
  | DCmdNotification =>
      mkFlags (sensors_changed f) (has_jvmti_events f)
        (has_gc_notification_event f) v (acs_notify f) (stringtable_work f)
        (symboltable_work f) (resolved_method_table_work f)
        (protection_domain_table_work f)
  | StringTableWork =>
      mkFlags (sensors_changed f) (has_jvmti_events f)
        (has_gc_notification_event f) (has_dcmd_notification_event f)
        (acs_notify f) v (symboltable_work f) (resolved_method_table_work f)
        (protection_domain_table_work f)
  | SymbolTableWork =>
      mkFlags (sensors_changed f) (has_jvmti_events f)
        (has_gc_notification_event f) (has_dcmd_notification_event f)
        (acs_notify f) (stringtable_work f) v (resolved_method_table_work f)
        (protection_domain_table_work f)
  | ResolvedMethodTableWork =>
      mkFlags (sensors_changed f) (has_jvmti_events f)
        (has_gc_notification_event f) (has_dcmd_notification_event f)
        (acs_notify f) (stringtable_work f) (symboltable_work f) v
        (protection_domain_table_work f)
  | ProtectionDomainTableWork =>
      mkFlags (sensors_changed f) (has_jvmti_events f)
        (has_gc_notification_event f) (has_dcmd_notification_event f)
        (acs_notify f) (stringtable_work f) (symboltable_work f)
        (resolved_method_table_work f) v
  end.

(** The nine locals as a list, for counting. *)
Definition all_flags (f : Flags) : list bool :=
  [sensors_changed f; has_jvmti_events f; has_gc_notification_event f;
   has_dcmd_notification_event f; acs_notify f; stringtable_work f;
   symboltable_work f; resolved_method_table_work f;
   protection_domain_table_work f].

Definition count_true (l : list bool) : nat := length (filter (fun b => b = true) l).

(** ** The wait condition *)

(** What each predicate of the condition answers when it is called.  The
    collaborators are outside this file, so their answers are inputs; the
    answer of [has_events] is computed from the queue by the caller. *)
Record Preds : Type := mkPreds {
  has_pending_requests : bool;          (* LowMemoryDetector *)
  has_events : bool;                    (* _jvmti_service_queue *)
  has_event : bool;                     (* GCNotifier *)
  has_pending_jmx_notification : bool;  (* DCmdFactory *)
  stringtable_has_work : bool;          (* StringTable *)
  symboltable_has_work : bool;          (* SymbolTable *)
  resolved_method_table_has_work : bool;(* ResolvedMethodTable *)
  pd_cache_table_has_work : bool        (* SystemDictionary::pd_cache_table() *)
}.

Definition answer (p : Preds) (src : Source) : bool :=
  match src with
  | Sensors => has_pending_requests p
  | JvmtiEvents => has_events p
  | GCNotification => has_event p
  | DCmdNotification => has_pending_jmx_notification p
  | StringTableWork => stringtable_has_work p
  | SymbolTableWork => symboltable_has_work p
  | ResolvedMethodTableWork => resolved_method_table_has_work p
  | ProtectionDomainTableWork => pd_cache_table_has_work p
  end.

(** The value of the [while] condition ([true]: call [wait]), the locals
    after its assignments, and the predicates that were called. *)
Record CondResult : Type := mkCond {
  keep_waiting : bool;
  cond_flags : Flags;
  polled : list Source
}.

(** [!(a = A()) && !(b = B()) && ...]: C++ [&&] evaluates its right
    operand only when the left one is true, so the chain stops at the
    first predicate that answers [true]; the calls and assignments to the
    right of it are not executed. *)
Definition wait_condition (p : Preds) (f0 : Flags) : CondResult :=
  let f1 := assign Sensors (has_pending_requests p) f0 in
  if sensors_changed f1 then mkCond false f1 [Sensors] else
  let f2 := assign JvmtiEvents (has_events p) f1 in
  if has_jvmti_events f2 then mkCond false f2 [Sensors; JvmtiEvents] else
  let f3 := assign GCNotification (has_event p) f2 in
  if has_gc_notification_event f3
  then mkCond false f3 [Sensors; JvmtiEvents; GCNotification] else
  let f4 := assign DCmdNotification (has_pending_jmx_notification p) f3 in
  if has_dcmd_notification_event f4
  then mkCond false f4 [Sensors; JvmtiEvents; GCNotification; DCmdNotification]
  else
  let f5 := assign StringTableWork (stringtable_has_work p) f4 in
  if stringtable_work f5
  then mkCond false f5 [Sensors; JvmtiEvents; GCNotification; DCmdNotification;
                        StringTableWork] else
  let f6 := assign SymbolTableWork (symboltable_has_work p) f5 in
  if symboltable_work f6
  then mkCond false f6 [Sensors; JvmtiEvents; GCNotification; DCmdNotification;
                        StringTableWork; SymbolTableWork] else
  let f7 := assign ResolvedMethodTableWork (resolved_method_table_has_work p) f6 in
  if resolved_method_table_work f7
  then mkCond false f7 [Sensors; JvmtiEvents; GCNotification; DCmdNotification;
                        StringTableWork; SymbolTableWork;
                        ResolvedMethodTableWork] else
  let f8 := assign ProtectionDomainTableWork (pd_cache_table_has_work p) f7 in
  if protection_domain_table_work f8 then mkCond false f8 condition_order
  else mkCond true f8 condition_order.

(** The prefix of [condition_order] up to and including the first source
    whose predicate answers [true] (all of it when none does). *)
Fixpoint up_to_first_true (p : Preds) (srcs : list Source) : list Source :=
  match srcs with
  | [] => []
  | src :: rest => src :: (if answer p src then [] else up_to_first_true p rest)
  end.

(** ** The deferred-event queue *)

(** Modelled from the spec: [JvmtiDeferredEventQueue] and
    [JvmtiDeferredEvent] are defined in prims/jvmtiImpl.cpp, which is not
    part of the sources at hand.  Following the spec (4.1) the queue is an
    ordered sequence: [enqueue] appends to the tail, [dequeue] removes and
    returns the head and needs a non-empty queue, [has_events] is the
    emptiness test, and the root visit reaches every queued event.  An
    event is opaque. *)
Module JvmtiDeferredEventQueue.
Section Queue.
Context {Event : Type}.

Definition t : Type := list Event.

Definition empty : t := [].

Definition enqueue (q : t) (e : Event) : t := q ++ [e].

Definition dequeue (q : t) : option (Event * t) :=
  match q with
  | [] => None
  | e :: q' => Some (e, q')
  end.

Definition has_events (q : t) : bool :=
  match q with
  | [] => false
  | _ :: _ => true
  end.

(** The events whose [oops_do] the queue's [oops_do] calls. *)
Definition oops_do (q : t) : list Event := q.

Definition nmethods_do (q : t) : list Event := q.

End Queue.
Arguments t : clear implicits.
End JvmtiDeferredEventQueue.

(** ** Threads, failures, observations *)

(** The [java.lang.Thread] object built by [initialize], after the
    setters of lines 77-79 have been called on it. *)
Inductive ThreadPriority : Type := NormPriority | NearMaxPriority.

Record ThreadOop : Type := mkThreadOop {
  oop_name : string;
  oop_thread : nat;               (* java_lang_Thread::set_thread *)
  oop_priority : ThreadPriority;  (* java_lang_Thread::set_priority *)
  oop_daemon : bool               (* java_lang_Thread::set_daemon *)
}.

(** A [ServiceThread] object as [new ServiceThread(&service_thread_entry)]
    returns it: [osthread] is [None] when no OS thread could be created. *)
Record JavaThread : Type := mkJavaThread {
  thread_id : nat;
  osthread : option nat;
  threadObj : option ThreadOop
}.

(** Modelled from the spec: [vm_exit_during_initialization], [assert] and
    [EXCEPTION_MARK] are the runtime's and not part of the sources at
    hand.  Following the spec (4.2, 7) the first is the abort path of
    start-up and does not return, and a failed assertion stops a debug
    build; an exception left pending inside [EXCEPTION_MARK] stops the
    runtime as well.  These are the ways the modelled execution stops. *)
Inductive Failure : Type :=
| VmExitDuringInitialization (error : string) (message : string)
| PendingException
| AssertionFailure (message : string).

(** [ASSERT] is [true] in a debug build, where [assert] is compiled in. *)
Class DebugBuild : Type := ASSERT : bool.

Section Model.

Context {Event : Type} {debug_build : DebugBuild}.

(** Who holds [Service_lock]: the service thread, or a producer thread
    inside [enqueue_deferred_event(event)]. *)
Inductive Owner : Type :=
| OwnWorker
| OwnProducer (tid : nat) (event : Event).

(** What an execution does, in the order it does it. *)
Inductive Obs : Type :=
| OLock (o : Owner)               (* Service_lock acquired *)
| OUnlock (o : Owner)             (* Service_lock released *)
| OEnqueue (tid : nat) (e : Event)(* _jvmti_service_queue.enqueue *)
| ONotifyAll                      (* Service_lock->notify_all() *)
| OIteration                      (* top of the body of while (true) *)
| OPoll (src : Source) (b : bool) (* a predicate of the condition was called *)
| OWait                           (* Service_lock->wait(...) *)
| ODequeue (e : Event)            (* _jvmti_service_queue.dequeue() *)
| OPost (e : Event)               (* _jvmti_event->post() *)
| OPerform (src : Source)         (* the work call of another source *)
| OReturn.                        (* CHECK: service_thread_entry returns *)

(** ** The service thread's program counter and locals *)

Inductive Pc : Type :=
| WStart        (* lines 89-111: locals, ThreadBlockInVM, MutexLockerEx *)
| WCond         (* lines 112-119: the while condition *)
| WWait         (* line 122: inside Service_lock->wait *)
| WDequeue      (* lines 125-127 *)
| WSetSlot      (* line 128 *)
| WUnlock       (* line 130: end of the locked block *)
| WStringTable  (* lines 132-134 *)
| WSymbolTable  (* lines 136-138 *)
| WPost         (* lines 140-141 *)
| WReset        (* line 142 *)
| WSensors      (* lines 145-147 *)
| WGC           (* lines 149-151 *)
| WDCmd         (* lines 153-155 *)
| WResolved     (* lines 157-159 *)
| WProtection   (* lines 161-163 *)
| WReturned (site : Source). (* left through CHECK after the call at [site] *)

Record Activation : Type := mkActivation {
  pc : Pc;
  flags : Flags;
  jvmti_event : option Event   (* the local JvmtiDeferredEvent, once assigned *)
}.

(** ** The state *)

Record State : Type := mkState {
  _instance : option JavaThread;          (* ServiceThread::_instance *)
  threads_list : list JavaThread;         (* Threads::add *)
  started : list JavaThread;              (* Thread::start *)
  _jvmti_event : option Event;            (* ServiceThread::_jvmti_event *)
  _jvmti_service_queue : JvmtiDeferredEventQueue.t Event;
  Service_lock : option Owner;
  worker : option Activation;             (* the running service_thread_entry *)
  vm_error : option Failure;
  history : list Obs
}.

(** Before [initialize]: the static initialisers of lines 42-47. *)
Definition boot : State :=
  mkState None [] [] None JvmtiDeferredEventQueue.empty None None None [].

Definition set_instance (t : JavaThread) (s : State) : State :=
  mkState (Some t) (threads_list s ++ [t]) (started s ++ [t]) (_jvmti_event s)
    (_jvmti_service_queue s) (Service_lock s) (worker s) (vm_error s) (history s).

Definition set_jvmti_event (p : option Event) (s : State) : State :=
  mkState (_instance s) (threads_list s) (started s) p
    (_jvmti_service_queue s) (Service_lock s) (worker s) (vm_error s) (history s).

Definition set_queue (q : JvmtiDeferredEventQueue.t Event) (s : State) : State :=
  mkState (_instance s) (threads_list s) (started s) (_jvmti_event s)
    q (Service_lock s) (worker s) (vm_error s) (history s).

Definition set_lock (l : option Owner) (s : State) : State :=
  mkState (_instance s) (threads_list s) (started s) (_jvmti_event s)
    (_jvmti_service_queue s) l (worker s) (vm_error s) (history s).

Definition set_worker (w : Activation) (s : State) : State :=
  mkState (_instance s) (threads_list s) (started s) (_jvmti_event s)
    (_jvmti_service_queue s) (Service_lock s) (Some w) (vm_error s) (history s).

Definition fail (e : Failure) (s : State) : State :=
  mkState (_instance s) (threads_list s) (started s) (_jvmti_event s)
    (_jvmti_service_queue s) (Service_lock s) (worker s) (Some e) (history s).

Definition log (l : list Obs) (s : State) : State :=
  mkState (_instance s) (threads_list s) (started s) (_jvmti_event s)
    (_jvmti_service_queue s) (Service_lock s) (worker s) (vm_error s)
    (history s ++ l).

(** ** [ServiceThread::initialize] *)

(** What the calls made by [initialize] answer. *)
Record InitEnv : Type := mkInitEnv {
  create_from_str_ok : bool;        (* no pending exception after line 53 *)
  construct_new_instance_ok : bool; (* no pending exception after line 62 *)
  new_ServiceThread : option JavaThread;  (* line 66; [None] is NULL *)
  native_thread_creation_failed_msg : string
}.

Inductive InitOutcome : Type :=
| InitReturned (s : State)
| InitStopped (e : Failure).

Definition initialize (ie : InitEnv) (s : State) : InitOutcome :=
  if negb (create_from_str_ok ie) then InitStopped PendingException else
  if negb (construct_new_instance_ok ie) then InitStopped PendingException else
  match new_ServiceThread ie with
  | None =>
      InitStopped (VmExitDuringInitialization "java.lang.OutOfMemoryError"
                     (native_thread_creation_failed_msg ie))
  | Some thread =>
      match osthread thread with
      | None =>
          InitStopped (VmExitDuringInitialization "java.lang.OutOfMemoryError"
                         (native_thread_creation_failed_msg ie))
      | Some _ =>
          let thread_oop :=
            mkThreadOop "Service Thread" (thread_id thread) NearMaxPriority
              true in
          let thread :=
            mkJavaThread (thread_id thread) (osthread thread) (Some thread_oop) in
          InitReturned (set_instance thread s)
      end
  end.

(** ** [ServiceThread::service_thread_entry] *)

(** What the collaborators answer to the service thread during one of its
    steps: the predicates of the condition (the entry for [has_events] is
    not used, the queue answers that one) and whether the two calls made
    under [CHECK] come back with a pending exception. *)
Record WorkerEnv : Type := mkWorkerEnv {
  answers : Preds;
  sendNotification_exception : bool;   (* GCNotifier::sendNotification *)
  send_notification_exception : bool   (* DCmdFactory::send_notification *)
}.

Definition observe (env : WorkerEnv) (q : JvmtiDeferredEventQueue.t Event) : Preds :=
  mkPreds (has_pending_requests (answers env))
    (JvmtiDeferredEventQueue.has_events q)
    (has_event (answers env))
    (has_pending_jmx_notification (answers env))
    (stringtable_has_work (answers env))
    (symboltable_has_work (answers env))
    (resolved_method_table_has_work (answers env))
    (pd_cache_table_has_work (answers env)).

(** The observations of one evaluation of the condition. *)
Definition poll_obs (p : Preds) (srcs : list Source) : list Obs :=
  map (fun src => OPoll src (answer p src)) srcs.

Definition goto (next : Pc) (w : Activation) : Activation :=
  mkActivation next (flags w) (jvmti_event w).

(** [if (b) { work(); }] for a work call that is not under [CHECK]. *)
Definition perform_if (b : bool) (src : Source) (next : Pc)
    (w : Activation) (s : State) : State :=
  set_worker (goto next w) (if b then log [OPerform src] s else s).

(** Modelled from the spec: the macro [CHECK] is not part of the sources
    at hand; following the spec (7) a failure of the call is not
    swallowed, it leaves the loop.  [if (b) { work(CHECK); }]: with a
    pending exception [CHECK] returns from [service_thread_entry]. *)
Definition perform_check_if (b exception : bool) (src : Source) (next : Pc)
    (w : Activation) (s : State) : State :=
  if b then
    if exception
    then set_worker (goto (WReturned src) w) (log [OPerform src; OReturn] s)
    else set_worker (goto next w) (log [OPerform src] s)
  else set_worker (goto next w) s.

(** One statement of the service thread.  [None]: the thread cannot run
    now (the lock is taken, or it has returned).  The thread is inside
    [ThreadBlockInVM] from [WStart] to [WUnlock]. *)
Definition worker_step (env : WorkerEnv) (w : Activation) (s : State)
    : option State :=
  match pc w with
  | WStart =>
      match Service_lock s with
      | Some _ => None
      | None =>
          Some (log [OIteration; OLock OwnWorker]
                  (set_lock (Some OwnWorker)
                     (set_worker (mkActivation WCond initial_flags None) s)))
      end
  | WCond =>
      let p := observe env (_jvmti_service_queue s) in
      let r := wait_condition p (flags w) in
      let s1 := log (poll_obs p (polled r)) s in
      if keep_waiting r
      then Some (log [OWait; OUnlock OwnWorker]
                   (set_lock None
                      (set_worker
                         (mkActivation WWait (cond_flags r) (jvmti_event w)) s1)))
      else Some (set_worker
                   (mkActivation WDequeue (cond_flags r) (jvmti_event w)) s1)
  | WWait =>
      match Service_lock s with
      | Some _ => None
      | None =>
          Some (log [OLock OwnWorker]
                  (set_lock (Some OwnWorker) (set_worker (goto WCond w) s)))
      end
  | WDequeue =>
      if has_jvmti_events (flags w) then
        match JvmtiDeferredEventQueue.dequeue (_jvmti_service_queue s) with
        | None => None
        | Some (e, q') =>
            Some (log [ODequeue e]
                    (set_queue q'
                       (set_worker (mkActivation WSetSlot (flags w) (Some e)) s)))
        end
      else Some (set_worker (goto WUnlock w) s)
  | WSetSlot =>
      Some (set_jvmti_event (jvmti_event w) (set_worker (goto WUnlock w) s))
  | WUnlock =>
      Some (log [OUnlock OwnWorker]
              (set_lock None (set_worker (goto WStringTable w) s)))
  | WStringTable =>
      Some (perform_if (stringtable_work (flags w)) StringTableWork
              WSymbolTable w s)
  | WSymbolTable =>
      Some (perform_if (symboltable_work (flags w)) SymbolTableWork WPost w s)
  | WPost =>
      if has_jvmti_events (flags w) then
        match _jvmti_event s with
        | None => None
        | Some e => Some (log [OPost e] (set_worker (goto WReset w) s))
        end
      else Some (set_worker (goto WSensors w) s)
  | WReset => Some (set_jvmti_event None (set_worker (goto WSensors w) s))
  | WSensors =>
      Some (perform_if (sensors_changed (flags w)) Sensors WGC w s)
  | WGC =>
      Some (perform_check_if (has_gc_notification_event (flags w))
              (sendNotification_exception env) GCNotification WDCmd w s)
  | WDCmd =>
      Some (perform_check_if (has_dcmd_notification_event (flags w))
              (send_notification_exception env) DCmdNotification WResolved w s)
  | WResolved =>
      Some (perform_if (resolved_method_table_work (flags w))
              ResolvedMethodTableWork WProtection w s)
  | WProtection =>
      Some (perform_if (protection_domain_table_work (flags w))
              ProtectionDomainTableWork WStart w s)
  | WReturned _ => None
  end.

(** ** [ServiceThread::enqueue_deferred_event] *)

(** Lines 172-175, run by the producer that holds the lock. *)
Definition enqueue_body (tid : nat) (event : Event) (s : State) : State :=
  if ASSERT && negb (bool_decide (is_Some (_instance s)))
  then fail (AssertionFailure
               "cannot enqueue events before the service thread runs") s
  else
    log [OEnqueue tid event; ONotifyAll; OUnlock (OwnProducer tid event)]
      (set_lock None
         (set_queue
            (JvmtiDeferredEventQueue.enqueue (_jvmti_service_queue s) event) s)).

(** ** The transition system *)

Inductive Label : Type :=
| LInitialize (ie : InitEnv)      (* the bootstrap calls initialize() *)
| LWorker (env : WorkerEnv)       (* the service thread runs a statement *)
| LEnter (tid : nat) (e : Event)  (* line 168: a producer takes the lock *)
| LEnqueue.                       (* lines 172-175: that producer goes on *)

(** The bootstrap calls [initialize] once: the step is enabled while no
    service thread has been started.  After a failure nothing runs. *)
Definition step (l : Label) (s : State) : option State :=
  match vm_error s with
  | Some _ => None
  | None =>
      match l with
      | LInitialize ie =>
          match started s with
          | _ :: _ => None
          | [] =>
              match initialize ie s with
              | InitReturned s' =>
                  Some (set_worker (mkActivation WStart initial_flags None) s')
              | InitStopped e => Some (fail e s)
              end
          end
      | LWorker env =>
          match worker s with
          | None => None
          | Some w => worker_step env w s
          end
      | LEnter tid e =>
          match Service_lock s with
          | Some _ => None
          | None =>
              Some (log [OLock (OwnProducer tid e)]
                      (set_lock (Some (OwnProducer tid e)) s))
          end
      | LEnqueue =>
          match Service_lock s with
          | Some (OwnProducer tid e) => Some (enqueue_body tid e s)
          | _ => None
          end
      end
  end.

Fixpoint run (ls : list Label) (s : State) : option State :=
  match ls with
  | [] => Some s
  | l :: ls' =>
      match step l s with
      | None => None
      | Some s' => run ls' s'
      end
  end.

Definition reachable (s : State) : Prop := exists ls, run ls boot = Some s.

(** A whole call of [enqueue_deferred_event(event)] by thread [tid] that
    finds the lock free. *)
Definition enqueue_deferred_event (tid : nat) (event : Event) (s : State)
    : option State :=
  run [LEnter tid event; LEnqueue] s.

(** ** [ServiceThread::oops_do] and [nmethods_do] *)

(** The events whose [oops_do] is called, for a call made while the other
    threads stand still (a safepoint).  [cf] is the [CodeBlobClosure*]
    argument, [None] for NULL.  [JavaThread::oops_do], called first, does
    not reach the deferred events.  With a non-null [cf] the in-flight
    slot is read without the lock, then the lock is taken for the queue:
    [None] when it is not free, the call cannot go on. *)
Definition oops_do {CodeBlobClosure : Type} (cf : option CodeBlobClosure)
    (s : State) : option (list Event) :=
  match cf with
  | None => Some []
  | Some _ =>
      let in_flight :=
        match _jvmti_event s with
        | Some e => [e]
        | None => []
        end in
      match Service_lock s with
      | Some _ => None
      | None =>
          Some (in_flight ++ JvmtiDeferredEventQueue.oops_do (_jvmti_service_queue s))
      end
  end.

Definition nmethods_do {CodeBlobClosure : Type} (cf : option CodeBlobClosure)
    (s : State) : option (list Event) :=
  match cf with
  | None => Some []
  | Some _ =>
      let in_flight :=
        match _jvmti_event s with
        | Some e => [e]
        | None => []
        end in
      match Service_lock s with
      | Some _ => None
      | None =>
          Some (in_flight
                  ++ JvmtiDeferredEventQueue.nmethods_do (_jvmti_service_queue s))
      end
  end.

(** [oops_do] when the other threads do not stand still: the slot is read
    in state [s_read], the lock is acquired and the queue scanned in the
    later state [s_scan]. *)
Definition oops_do_interleaved {CodeBlobClosure : Type}
    (cf : option CodeBlobClosure) (s_read s_scan : State)
    : option (list Event) :=
  match cf with
  | None => Some []
  | Some _ =>
      let in_flight :=
        match _jvmti_event s_read with
        | Some e => [e]
        | None => []
        end in
      match Service_lock s_scan with
      | Some _ => None
      | None =>
          Some (in_flight
                  ++ JvmtiDeferredEventQueue.oops_do (_jvmti_service_queue s_scan))
      end
  end.

(** ** Reading the history *)

Definition enqueued (h : list Obs) : list Event :=
  flat_map (fun o => match o with OEnqueue _ e => [e] | _ => [] end) h.

Definition enqueued_by (tid : nat) (h : list Obs) : list Event :=
  flat_map (fun o => match o with
                     | OEnqueue t e => if decide (t = tid) then [e] else []
                     | _ => []
                     end) h.

Definition dequeued (h : list Obs) : list Event :=
  flat_map (fun o => match o with ODequeue e => [e] | _ => [] end) h.

Definition posted (h : list Obs) : list Event :=
  flat_map (fun o => match o with OPost e => [e] | _ => [] end) h.

(** The events of the producers' lock acquisitions: the order in which the
    monitor linearized the calls of [enqueue_deferred_event]. *)
Definition linearized (h : list Obs) : list Event :=
  flat_map (fun o => match o with OLock (OwnProducer _ e) => [e] | _ => [] end) h.

(** The sources whose work call was made; [post] is the work call of the
    queue. *)
Definition performed (h : list Obs) : list Source :=
  flat_map (fun o => match o with
                     | OPost _ => [JvmtiEvents]
                     | OPerform src => [src]
                     | _ => []
                     end) h.

Definition polls (h : list Obs) : list (Source * bool) :=
  flat_map (fun o => match o with OPoll src b => [(src, b)] | _ => [] end) h.

(** The part of the history that belongs to the iteration in progress:
    from the last [OIteration] on. *)
Definition current_iteration (h : list Obs) : list Obs :=
  fold_left (fun acc o => match o with
                          | OIteration => [OIteration]
                          | _ => acc ++ [o]
                          end) h [].

(** No predicate is called after a work call. *)
Fixpoint polls_precede_performs (h : list Obs) : bool :=
  match h with
  | [] => true
  | o :: h' =>
      match performed [o] with
      | [] => polls_precede_performs h'
      | _ :: _ => bool_decide (polls h' = [])
      end
  end.

(** ** The queue invariant *)

(** The statements the service thread executes with [Service_lock] held. *)
Definition holds_lock (p : Pc) : bool :=
  match p with
  | WCond | WDequeue | WSetSlot | WUnlock => true
  | _ => false
  end.

(** Where the event last dequeued is, statement by statement. *)
Definition worker_inv (w : Activation) (s : State) : Prop :=
  (Service_lock s = Some OwnWorker <-> holds_lock (pc w) = true) /\
  match pc w with
  | WCond | WWait =>
      _jvmti_event s = None /\
      dequeued (history s) = posted (history s) /\
      has_jvmti_events (flags w) = false
  | WDequeue =>
      _jvmti_event s = None /\
      dequeued (history s) = posted (history s) /\
      (has_jvmti_events (flags w) = true -> _jvmti_service_queue s <> [])
  | WSetSlot =>
      _jvmti_event s = None /\
      has_jvmti_events (flags w) = true /\
      exists e, jvmti_event w = Some e /\
                dequeued (history s) = posted (history s) ++ [e]
  | WUnlock | WStringTable | WSymbolTable | WPost =>
      if has_jvmti_events (flags w)
      then exists e, _jvmti_event s = Some e /\
                     dequeued (history s) = posted (history s) ++ [e]
      else _jvmti_event s = None /\ dequeued (history s) = posted (history s)
  | WReset =>
      dequeued (history s) = posted (history s) /\
      exists e h', _jvmti_event s = Some e /\ posted (history s) = h' ++ [e]
  | _ => _jvmti_event s = None /\ dequeued (history s) = posted (history s)
  end.

(** The queue holds the events enqueued and not yet dequeued, in order;
    the producers' lock acquisitions are the events enqueued, plus the
    event of the producer that holds the lock now. *)
Definition queue_inv (s : State) : Prop :=
  enqueued (history s) = dequeued (history s) ++ _jvmti_service_queue s /\
  linearized (history s)
  = enqueued (history s)
    ++ match Service_lock s with
       | Some (OwnProducer _ e) => [e]
       | _ => []
       end /\
  (started s = [] -> worker s = None) /\
  match worker s with
  | None =>
      Service_lock s <> Some OwnWorker /\
      _jvmti_event s = None /\ dequeued (history s) = posted (history s)
  | Some w => worker_inv w s
  end.

(** ** The invariant of the locals *)

(** Exactly one local is set, that of [src]. *)
Definition only (src : Source) : Flags := assign src true initial_flags.

(** In the wait loop every local is [false]; past it exactly one is set. *)
Definition flags_inv (s : State) : Prop :=
  match worker s with
  | None => OIteration ∉ history s
  | Some w =>
      match pc w with
      | WStart =>
          (flags w = initial_flags \/ exists src, flags w = only src) /\
          (OIteration ∈ history s -> exists src, flags w = only src)
      | WCond | WWait => flags w = initial_flags
      | WReturned site => flags w = only site
      | _ => exists src, flags w = only src
      end
  end.

(** ** The invariant of the iteration in progress *)

(** The prefix of [l] that ends with [site]. *)
Fixpoint through (site : Source) (l : list Source) : list Source :=
  match l with
  | [] => []
  | x :: l' => x :: (if decide (x = site) then [] else through site l')
  end.

(** The sources whose [if] statement lies behind the program counter.
    At [WStart] the iteration that last ran is complete. *)
Definition done_before (p : Pc) : list Source :=
  match p with
  | WStart => dispatch_order
  | WCond | WWait | WDequeue | WSetSlot | WUnlock | WStringTable => []
  | WSymbolTable => [StringTableWork]
  | WPost => [StringTableWork; SymbolTableWork]
  | WReset | WSensors => [StringTableWork; SymbolTableWork; JvmtiEvents]
  | WGC => [StringTableWork; SymbolTableWork; JvmtiEvents; Sensors]
  | WDCmd =>
      [StringTableWork; SymbolTableWork; JvmtiEvents; Sensors; GCNotification]
  | WResolved =>
      [StringTableWork; SymbolTableWork; JvmtiEvents; Sensors; GCNotification;
       DCmdNotification]
  | WProtection =>
      [StringTableWork; SymbolTableWork; JvmtiEvents; Sensors; GCNotification;
       DCmdNotification; ResolvedMethodTableWork]
  | WReturned site => through site dispatch_order
  end.

(** What holds of the iteration in progress [cur] when the [if]
    statements of [l] lie behind: the work calls made are those of the
    sources of [l] whose local is set, in the order of [l]; no predicate
    was called after a work call; a local that is set was assigned by a
    predicate that answered [true] in this iteration. *)
Definition iter_ok (f : Flags) (l : list Source) (cur : list Obs) : Prop :=
  performed cur = List.filter (flag f) l /\
  polls_precede_performs cur = true /\
  forall src, flag f src = true -> (src, true) ∈ polls cur.

(** [iter_ok] holds at every statement of the service thread. *)
Definition iter_inv (s : State) : Prop :=
  match worker s with
  | None => performed (current_iteration (history s)) = []
  | Some w =>
      iter_ok (flags w) (done_before (pc w)) (current_iteration (history s))
  end.

(** The three invariants together. *)
Definition inv (s : State) : Prop := queue_inv s /\ flags_inv s /\ iter_inv s.

(** ** The dispatch phase as a whole *)

(** The observation of the work call of [src]; the work call of the queue
    is [post] on the event in the slot. *)
Definition work_obs (slot : option Event) (src : Source) : list Obs :=
  match src, slot with
  | JvmtiEvents, Some e => [OPost e]
  | JvmtiEvents, None => []
  | _, _ => [OPerform src]
  end.

(** The service thread runs on its own until it is back at the top of the
    loop or has returned. *)
Fixpoint run_worker (fuel : nat) (env : WorkerEnv) (s : State) : option State :=
  match fuel with
  | 0 => None
  | S fuel' =>
      match step (LWorker env) s with
      | None => None
      | Some s' =>
          match worker s' with
          | Some (mkActivation WStart _ _)
          | Some (mkActivation (WReturned _) _ _) => Some s'
          | _ => run_worker fuel' env s'
          end
      end
  end.

(** The statements of the dispatch phase, lines 132-163. *)
Definition in_dispatch (p : Pc) : bool :=
  match p with
  | WStringTable | WSymbolTable | WPost | WReset | WSensors | WGC | WDCmd
  | WResolved | WProtection => true
  | _ => false
  end.

(** The iteration is over: back at the top, or returned. *)
Definition terminal (p : Pc) : bool :=
  match p with
  | WStart | WReturned _ => true
  | _ => false
  end.

(** The statements still ahead in the dispatch phase, at most. *)
Definition remaining (p : Pc) : nat :=
  match p with
  | WStringTable => 9
  | WSymbolTable => 8
  | WPost => 7
  | WReset => 6
  | WSensors => 5
  | WGC => 4
  | WDCmd => 3
  | WResolved => 2
  | WProtection => 1
  | _ => 0
  end.

(** Where a statement of the dispatch phase leads. *)
Definition next_pc (env : WorkerEnv) (f : Flags) (p : Pc) : Pc :=
  match p with
  | WStringTable => WSymbolTable
  | WSymbolTable => WPost
  | WPost => if has_jvmti_events f then WReset else WSensors
  | WReset => WSensors
  | WSensors => WGC
  | WGC =>
      if has_gc_notification_event f && sendNotification_exception env
      then WReturned GCNotification else WDCmd
  | WDCmd =>
      if has_dcmd_notification_event f && send_notification_exception env
      then WReturned DCmdNotification else WResolved
  | WResolved => WProtection
  | WProtection => WStart
  | _ => p
  end.

(** The observations of the dispatch phase up to [p], for the locals [f]
    and the slot [slot0] the phase started with. *)
Definition dispatch_obs (slot0 : option Event) (f : Flags) (p : Pc) : list Obs :=
  flat_map (fun src => if flag f src then work_obs slot0 src else [])
    (done_before p)
  ++ match p with
     | WReturned _ => [OReturn]
     | _ => []
     end.

(** The service thread is at [p] in a dispatch phase that started from
    history [h0] and slot [slot0]. *)
Definition dispatching (h0 : list Obs) (slot0 : option Event) (f : Flags)
    (ev : option Event) (p : Pc) (s : State) : Prop :=
  vm_error s = None /\
  worker s = Some (mkActivation p f ev) /\
  history s = h0 ++ dispatch_obs slot0 f p /\
  (remaining p >= 7 -> _jvmti_event s = slot0) /\
  (p = WReset -> _jvmti_event s = slot0).

(** Where the dispatch phase can end: at the top of the loop, or in a
    return through [CHECK]. *)
Definition exit_pc (env : WorkerEnv) (f : Flags) (p : Pc) : Prop :=
  p = WStart \/
  (p = WReturned GCNotification /\ has_gc_notification_event f = true /\
   sendNotification_exception env = true) \/
  (p = WReturned DCmdNotification /\ has_dcmd_notification_event f = true /\
   send_notification_exception env = true).

(** The events enqueued and not yet delivered, oldest first. *)
Definition pending (s : State) : list Event :=
  drop (length (posted (history s))) (enqueued (history s)).

(** The statements after the [while] loop of lines 112-123. *)
Definition past_wait_loop (p : Pc) : bool :=
  match p with
  | WStart | WCond | WWait => false
  | _ => true
  end.

(** ** More readers and invariants *)

(** The calls of [enqueue], each with the thread that made it. *)
Definition enqueued_tagged (h : list Obs) : list (nat * Event) :=
  flat_map (fun o => match o with OEnqueue t e => [(t, e)] | _ => [] end) h.

(** Among the calls whose event has been dequeued, the events of the
    calls of thread [tid]. *)
Definition dequeued_of (tid : nat) (h : list Obs) : list Event :=
  map snd
    (List.filter (fun c => bool_decide (fst c = tid))
       (take (length (dequeued h)) (enqueued_tagged h))).

(** The service thread is at the top of the loop and nothing is in its
    hands: the lock is free and the slot is empty. *)
Definition idle_at_top (s : State) : Prop :=
  vm_error s = None /\
  Service_lock s = None /\
  _jvmti_event s = None /\
  exists f ev, worker s = Some (mkActivation WStart f ev).

(** A step during which the low-memory detector, if asked, reports
    pending requests: a step of the service thread with such an answer,
    or a step of a producer. *)
Definition sensors_pending (l : Label) : Prop :=
  match l with
  | LWorker env => has_pending_requests (answers env) = true
  | LEnter _ _ | LEnqueue => True
  | LInitialize _ => False
  end.

(** The service thread is not about to take an event: it is at the top
    of the loop, or its local for the queue is [false]. *)
Definition no_event_flagged (s : State) : Prop :=
  match worker s with
  | None => True
  | Some w => pc w = WStart \/ has_jvmti_events (flags w) = false
  end.

(** The slot, when set, holds the local of the running iteration; a
    return through [CHECK] comes from one of the two calls made under it;
    the service thread exists exactly when [_instance] is set; an
    assertion has failed only in a debug build, before [initialize], in
    the hands of the producer that holds the lock. *)
Definition life_inv (s : State) : Prop :=
  (forall e, _jvmti_event s = Some e ->
     exists w, worker s = Some w /\ jvmti_event w = Some e /\
               has_jvmti_events (flags w) = true) /\
  match worker s with
  | Some (mkActivation (WReturned site) _ _) =>
      site = GCNotification \/ site = DCmdNotification
  | _ => True
  end /\
  (worker s = None <-> _instance s = None) /\
  (forall m, vm_error s = Some (AssertionFailure m) ->
     ASSERT = true /\ _instance s = None /\
     m = "cannot enqueue events before the service thread runs"%string /\
     exists tid e, Service_lock s = Some (OwnProducer tid e)).

(** The statements between the assignment of the slot and its reset. *)
Definition slot_in_use (p : Pc) : bool :=
  match p with
  | WUnlock | WStringTable | WSymbolTable | WPost | WReset => true
  | _ => false
  end.


(** ** The monitor discipline, read off the trace *)

(** The thread that holds [Service_lock]. *)
Inductive Holder : Type :=
| HWorker
| HProducer (tid : nat).

Definition holder (o : Owner) : Holder :=
  match o with
  | OwnWorker => HWorker
  | OwnProducer tid _ => HProducer tid
  end.

Definition held_by (x : Holder) (cur : option Holder) : bool :=
  match x, cur with
  | HWorker, Some HWorker => true
  | HProducer t, Some (HProducer t') => Nat.eqb t t'
  | _, _ => false
  end.

(** What one observation requires of the holder of the lock, and the
    holder after it; [None] when the requirement is not met.  The lock is
    taken only when free and released only by its holder; [enqueue] and
    [notify_all] are for the producer that holds the lock; the predicates
    of the condition, [wait] and [dequeue] are for the service thread
    while it holds the lock; the service thread starts an iteration,
    makes its work calls and returns while it does not hold the lock. *)
Definition monitor_step (cur : option Holder) (o : Obs)
    : option (option Holder) :=
  match o with
  | OLock x =>
      match cur with
      | None => Some (Some (holder x))
      | Some _ => None
      end
  | OUnlock x => if held_by (holder x) cur then Some None else None
  | OEnqueue tid _ => if held_by (HProducer tid) cur then Some cur else None
  | ONotifyAll =>
      match cur with
      | Some (HProducer _) => Some cur
      | _ => None
      end
  | OPoll _ _ | OWait | ODequeue _ =>
      if held_by HWorker cur then Some cur else None
  | OIteration | OPost _ | OPerform _ | OReturn =>
      if held_by HWorker cur then None else Some cur
  end.

Definition monitor_next (st : option (option Holder)) (o : Obs)
    : option (option Holder) :=
  match st with
  | Some cur => monitor_step cur o
  | None => None
  end.

(** The holder of the lock at the end of a trace that starts with the
    lock free; [None] when the trace breaks the discipline. *)
Definition monitor (h : list Obs) : option (option Holder) :=
  fold_left monitor_next h (Some None).

(** ** What [initialize] installs *)

End Model.

Arguments dispatch_obs : simpl never.

(** ** A concrete run *)

(** The events are numbers and the build is a debug build. *)
Definition demo_thread : JavaThread := mkJavaThread 7 (Some 1) None.

Definition demo_init : InitEnv := mkInitEnv true true (Some demo_thread) "".

Definition quiet : WorkerEnv :=
  mkWorkerEnv (mkPreds false false false false false false false false)
    false false.

(** After [initialize], two producers enqueue 10 and 20. *)
Definition demo_enqueued_labels : list (@Label nat) :=
  [LInitialize demo_init; LEnter 1 10; LEnqueue; LEnter 2 20; LEnqueue].

Definition demo_enqueued : @State nat :=
  Eval vm_compute in
    default boot (run (debug_build := true) demo_enqueued_labels boot).

(** Then the service thread takes the lock, leaves the wait loop,
    dequeues 10 into the slot and releases the lock. *)
Definition demo_in_flight_labels : list (@Label nat) :=
  demo_enqueued_labels ++ replicate 5 (LWorker quiet).

Definition demo_in_flight : @State nat :=
  Eval vm_compute in
    default boot (run (debug_build := true) demo_in_flight_labels boot).

(** The same run stopped one statement after the dequeue: the service
    thread holds the lock, event 10 is in its local and not yet in the
    slot. *)
Definition demo_dequeued_labels : list (@Label nat) :=
  demo_enqueued_labels ++ replicate 3 (LWorker quiet).

Definition demo_dequeued : @State nat :=
  Eval vm_compute in
    default boot (run (debug_build := true) demo_dequeued_labels boot).

(** From [demo_in_flight] the service thread goes through the dispatch
    phase, back to the top of the loop. *)
Definition demo_delivered_labels : list (@Label nat) :=
  demo_in_flight_labels ++ replicate 9 (LWorker quiet).

Definition demo_delivered : @State nat :=
  Eval vm_compute in
    default boot (run (debug_build := true) demo_delivered_labels boot).

(** A state at the first [if] of the dispatch phase with every local of a
    source set and event 7 in the slot. *)
Definition demo_all_flags : Flags :=
  mkFlags true true true true false true true true true.

Definition demo_dispatch : @State nat :=
  mkState (Some demo_thread) [demo_thread] [demo_thread] (Some 7) [] None
    (Some (mkActivation WStringTable demo_all_flags (Some 7))) None [].

(** [new ServiceThread] yields a thread that has no OS thread. *)
Definition failing_init : InitEnv :=
  mkInitEnv true true (Some (mkJavaThread 7 None None))
    "unable to create native thread".

(** A second thread object, for a second call of [initialize]. *)
Definition second_thread : JavaThread := mkJavaThread 8 (Some 2) None.

Definition second_init : InitEnv := mkInitEnv true true (Some second_thread) "".

(** ** More concrete runs *)

(** The low-memory detector reports pending requests. *)
Definition sensors_busy : WorkerEnv :=
  mkWorkerEnv (mkPreds true false false false false false false false)
    false false.

(** A GC notification is pending and sending it leaves an exception. *)
Definition gc_throws : WorkerEnv :=
  mkWorkerEnv (mkPreds false false true false false false false false)
    true false.


(** After [initialize] the service thread takes the lock and evaluates
    the condition ... *)
Definition demo_at_cond_labels : list (@Label nat) :=
  [LInitialize demo_init; LWorker quiet].

Definition demo_at_cond : @State nat :=
  Eval vm_compute in
    default boot (run (debug_build := true) demo_at_cond_labels boot).



(** From [demo_enqueued], with the sensors always pending, the service
    thread runs two iterations while a third producer enqueues 30. *)
Definition demo_starving_labels : list (@Label nat) :=
  replicate 12 (LWorker sensors_busy) ++ [LEnter 3 30; LEnqueue]
  ++ replicate 12 (LWorker sensors_busy).

Definition demo_starved : @State nat :=
  Eval vm_compute in
    default boot (run (debug_build := true) demo_starving_labels demo_enqueued).

(** From [demo_enqueued] to the statement that posts event 10, and one
    statement further. *)
Definition demo_at_post_labels : list (@Label nat) :=
  demo_enqueued_labels ++ replicate 7 (LWorker quiet).

Definition demo_at_post : @State nat :=
  Eval vm_compute in
    default boot (run (debug_build := true) demo_at_post_labels boot).

Definition demo_posted : @State nat :=
  Eval vm_compute in
    default boot (step (debug_build := true) (LWorker quiet) demo_at_post).

(** After [initialize] a GC notification is pending; sending it fails and
    the service thread returns. *)
Definition demo_returned_labels : list (@Label nat) :=
  LInitialize demo_init :: replicate 9 (LWorker gc_throws).

Definition demo_returned : @State nat :=
  Eval vm_compute in
    default boot (run (debug_build := true) demo_returned_labels boot).

(** Then a producer enqueues 10. *)
Definition demo_after_return : @State nat :=
  Eval vm_compute in
    default boot
      (run (debug_build := true) [LEnter 1 10; LEnqueue] demo_returned).



(** * Proofs *)

Section Proofs.

Context {Event : Type} {debug_build : DebugBuild}.

Local Abbreviation State := (@State Event).
Local Abbreviation Activation := (@Activation Event).
Local Abbreviation Obs := (@Obs Event).
Local Abbreviation Label := (@Label Event).
Local Abbreviation poll_obs := (@poll_obs Event).
Local Abbreviation boot := (@boot Event).

Implicit Types (s : State) (w : Activation) (h cur obs : list Obs).
Implicit Types (ev slot : option Event).

(** ** Facts about the history readers *)

Lemma enqueued_app h1 h2 : enqueued (h1 ++ h2) = enqueued h1 ++ enqueued h2.
Proof. apply flat_map_app. Qed.

Lemma enqueued_by_app tid h1 h2 :
  enqueued_by tid (h1 ++ h2) = enqueued_by tid h1 ++ enqueued_by tid h2.
Proof. apply flat_map_app. Qed.

Lemma dequeued_app h1 h2 : dequeued (h1 ++ h2) = dequeued h1 ++ dequeued h2.
Proof. apply flat_map_app. Qed.

Lemma posted_app h1 h2 : posted (h1 ++ h2) = posted h1 ++ posted h2.
Proof. apply flat_map_app. Qed.

Lemma linearized_app h1 h2 :
  linearized (h1 ++ h2) = linearized h1 ++ linearized h2.
Proof. apply flat_map_app. Qed.

Lemma performed_app h1 h2 : performed (h1 ++ h2) = performed h1 ++ performed h2.
Proof. apply flat_map_app. Qed.

Lemma polls_app h1 h2 : polls (h1 ++ h2) = polls h1 ++ polls h2.
Proof. apply flat_map_app. Qed.

Lemma current_iteration_app h l :
  current_iteration (h ++ l)
  = fold_left (fun acc o => match o with
                            | OIteration => [OIteration]
                            | _ => acc ++ [o]
                            end) l (current_iteration h).
Proof. apply fold_left_app. Qed.

Lemma polls_precede_performs_quiet h :
  polls h = [] -> polls_precede_performs h = true.
Proof.
  induction h as [|o h IH]; [done|].
  destruct o; simpl; intros Hp; try done; try (by apply IH).
  all: by apply bool_decide_eq_true.
Qed.

Lemma polls_precede_performs_idle h :
  performed h = [] -> polls_precede_performs h = true.
Proof.
  induction h as [|o h IH]; [done|].
  destruct o; simpl; intros Hp; try done; by apply IH.
Qed.

Lemma polls_precede_performs_app h l :
  polls l = [] -> polls_precede_performs (h ++ l) = polls_precede_performs h.
Proof.
  intros Hl. induction h as [|o h IH]; simpl.
  - by apply polls_precede_performs_quiet.
  - destruct o; simpl; auto; by rewrite polls_app, Hl, app_nil_r.
Qed.

Lemma poll_obs_silent p srcs :
  enqueued (poll_obs p srcs) = [] /\ dequeued (poll_obs p srcs) = [] /\
  posted (poll_obs p srcs) = [] /\ linearized (poll_obs p srcs) = [] /\
  performed (poll_obs p srcs) = [] /\
  (forall tid, enqueued_by tid (poll_obs p srcs) = []).
Proof. induction srcs as [|src srcs IH]; simpl; [done|]. exact IH. Qed.

Lemma polls_poll_obs p srcs :
  polls (poll_obs p srcs) = map (fun src => (src, answer p src)) srcs.
Proof. induction srcs as [|src srcs IH]; simpl; [done|]. by rewrite IH. Qed.

(** ** Facts about the wait condition *)

Lemma wait_condition_polled p f :
  polled (wait_condition p f) = up_to_first_true p condition_order.
Proof. destruct p as [[] [] [] [] [] [] [] []]; reflexivity. Qed.

(** The loop goes on exactly when every predicate answered [false], and
    then every local of a source is [false]. *)
Lemma wait_condition_keep_waiting p f :
  keep_waiting (wait_condition p f) = true ->
  (forall src, answer p src = false) /\
  cond_flags (wait_condition p f)
  = mkFlags false false false false (acs_notify f) false false false false.
Proof.
  destruct p as [[] [] [] [] [] [] [] []]; simpl; intros H; try done.
  split; [by intros []|done].
Qed.

(** A local is [true] after the evaluation only if it was before or its
    predicate was called and answered [true]. *)
Lemma wait_condition_flag p f src :
  flag (cond_flags (wait_condition p f)) src = true ->
  flag f src = true \/
  (answer p src = true /\ src ∈ polled (wait_condition p f)).
Proof.
  destruct p as [[] [] [] [] [] [] [] []], src; simpl; intros H;
    first [ by left | right; split; [done|]; repeat constructor | done ].
Qed.

(** From locals that are all [false], the loop is left with exactly the
    local of the first [true] predicate set. *)
Lemma wait_condition_exit p :
  keep_waiting (wait_condition p initial_flags) = false ->
  exists src,
    answer p src = true /\
    cond_flags (wait_condition p initial_flags) = assign src true initial_flags /\
    last (polled (wait_condition p initial_flags)) = Some src.
Proof.
  destruct p as [[] [] [] [] [] [] [] []]; simpl; intros H; try done.
  all: first
    [ by exists Sensors | by exists JvmtiEvents | by exists GCNotification
    | by exists DCmdNotification | by exists StringTableWork
    | by exists SymbolTableWork | by exists ResolvedMethodTableWork
    | by exists ProtectionDomainTableWork ].
Qed.

Ltac hist :=
  repeat first
    [ rewrite enqueued_app | rewrite dequeued_app | rewrite posted_app
    | rewrite linearized_app | rewrite performed_app | rewrite polls_app
    | rewrite enqueued_by_app ];
  simpl; rewrite ?app_nil_r.

Lemma queue_inv_boot : queue_inv boot.
Proof. repeat split; done. Qed.

Lemma initialize_returned ie s s' :
  initialize ie s = InitReturned s' ->
  exists t, s' = set_instance t s /\ is_Some (osthread t).
Proof.
  unfold initialize. intros H.
  repeat case_match; simplify_eq. eexists; split; [done|]. simpl. eauto.
Qed.

Ltac expose :=
  unfold queue_inv, worker_inv, perform_if, perform_check_if; simpl; hist;
  try match goal with
      | H : Service_lock _ = _ |- _ => rewrite ?H; simpl
      end;
  rewrite ?app_nil_r.

Ltac finish :=
  expose;
  repeat match goal with
         | H : context [_ ++ []] |- _ => rewrite app_nil_r in H
         end;
  intuition (try done; try congruence; eauto).

Lemma queue_inv_step l s s' : queue_inv s -> step l s = Some s' -> queue_inv s'.
Proof.
  intros (Hq & Hl & Hb & Hw) Hs. unfold step in Hs.
  destruct (vm_error s); [done|].
  destruct l as [ie|env|tid e|].
  - destruct (started s) eqn:Hst; [|done].
    rewrite (Hb eq_refl) in Hw. destruct Hw as (Hw1 & Hw2 & Hw3).
    destruct (initialize ie s) as [s1|f] eqn:Hi; simplify_eq.
    + apply initialize_returned in Hi as (t & -> & _).
      unfold queue_inv, worker_inv; simpl. repeat split; try done.
      intros Hn. by apply app_eq_nil in Hn as [_ ?].
    + unfold queue_inv; simpl. rewrite (Hb eq_refl). done.
  - destruct (worker s) as [[p f ev]|] eqn:Hwk; [|done].
    assert (Hne : started s = [] -> False)
      by (intros E; by specialize (Hb E)).
    unfold worker_step in Hs. unfold worker_inv in Hw. simpl in *.
    destruct Hw as [Hlk Hw].
    assert (Hown : holds_lock p = true -> Service_lock s = Some OwnWorker)
      by apply Hlk.
    destruct p; simpl in *;
      try (specialize (Hown eq_refl); rewrite Hown in Hl; simpl in Hl);
      rewrite ?app_nil_r in Hl.
    + destruct (Service_lock s) eqn:?; simplify_eq. finish.
    + destruct Hw as (Hw1 & Hw2 & Hw3).
      pose proof (wait_condition_keep_waiting
                    (observe env (_jvmti_service_queue s)) f) as Hkeep.
      pose proof (wait_condition_flag
                    (observe env (_jvmti_service_queue s)) f JvmtiEvents) as Hex.
      destruct (poll_obs_silent (observe env (_jvmti_service_queue s))
                  (polled (wait_condition
                             (observe env (_jvmti_service_queue s)) f)))
        as (E1 & E2 & E3 & E4 & E5 & E6).
      destruct (keep_waiting _) eqn:Hk; simplify_eq; expose;
        rewrite ?E1, ?E2, ?E3, ?E4, ?app_nil_r.
      * destruct (Hkeep eq_refl) as [_ ->]. simpl. intuition done.
      * repeat split; try done.
        intros Ht. destruct (Hex Ht) as [?|[Ha _]]; [simpl in *; congruence|].
        simpl in Ha. destruct (_jvmti_service_queue s); done.
    + destruct (Service_lock s) eqn:?; simplify_eq. finish.
    + destruct Hw as (Hw1 & Hw2 & Hw3).
      destruct (has_jvmti_events f) eqn:Hf.
      * destruct (_jvmti_service_queue s) as [|e q] eqn:Hqs;
          simpl in Hs; simplify_eq.
        expose. repeat split; try done.
        -- by rewrite Hq, <- app_assoc.
        -- eexists; split; [done|]. by rewrite Hw2.
      * simplify_eq. expose. rewrite Hf. intuition done.
    + destruct Hw as (Hw1 & Hw2 & e & -> & Hw3).
      simplify_eq. expose. rewrite Hw2. intuition eauto.
    + simplify_eq. expose. destruct (has_jvmti_events f); finish.
    + simplify_eq. expose. destruct (stringtable_work f), (has_jvmti_events f); finish.
    + simplify_eq. expose. destruct (symboltable_work f), (has_jvmti_events f); finish.
    + destruct (has_jvmti_events f).
      * destruct Hw as (e & Hw1 & Hw2). rewrite Hw1 in Hs. simplify_eq.
        expose. repeat split; try done; [apply Hlk|eauto].
      * simplify_eq. finish.
    + destruct Hw as (Hw1 & e & h' & Hw2 & Hw3).
      simplify_eq. finish.
    + simplify_eq. expose. destruct (sensors_changed f); finish.
    + simplify_eq. expose.
      destruct (has_gc_notification_event f),
        (sendNotification_exception env); finish.
    + simplify_eq. expose.
      destruct (has_dcmd_notification_event f),
        (send_notification_exception env); finish.
    + simplify_eq. expose. destruct (resolved_method_table_work f); finish.
    + simplify_eq. expose. destruct (protection_domain_table_work f); finish.
    + done.
  - destruct (Service_lock s) eqn:Hlock; simplify_eq.
    rewrite app_nil_r in Hl.
    unfold queue_inv; simpl; hist.
    split; [done|]. split; [by rewrite Hl|]. split; [done|].
    destruct (worker s) as [w|]; [|by intuition].
    unfold worker_inv in *; simpl; hist.
    destruct Hw as [Hlk Hw]. split; [|done].
    split; [done|]. intros Hh. apply Hlk in Hh. congruence.
  - destruct (Service_lock s) as [[|tid e]|] eqn:Hlock; simplify_eq.
    unfold enqueue_body.
    destruct (ASSERT && _); unfold queue_inv; simpl; hist.
    + rewrite Hlock. split; [done|]. split; [done|]. split; [done|].
      destruct (worker s) as [w|]; [|done].
      unfold worker_inv in *; simpl. done.
    + unfold JvmtiDeferredEventQueue.enqueue.
      split; [by rewrite Hq, app_assoc|]. split; [done|]. split; [done|].
      destruct (worker s) as [w|].
      * unfold worker_inv in *; simpl; hist.
        destruct Hw as [Hlk Hw]. split.
        -- split; [done|]. intros Hh. apply Hlk in Hh. congruence.
        -- destruct (pc w); try done.
           destruct Hw as (? & ? & Hc). repeat split; try done.
           intros _ Hn. by apply app_eq_nil in Hn as [_ ?].
      * destruct Hw as (? & ? & ?). done.
Qed.

Lemma run_invariant (P : State -> Prop) :
  (forall l s s', P s -> step l s = Some s' -> P s') ->
  forall ls s s', P s -> run ls s = Some s' -> P s'.
Proof.
  intros Hstep ls. induction ls as [|l ls IH]; simpl; intros s s' HP Hr.
  - by simplify_eq.
  - destruct (step l s) as [s1|] eqn:Hs; [|done]. eauto.
Qed.

Lemma flags_inv_boot : flags_inv boot.
Proof. unfold flags_inv; simpl. apply not_elem_of_nil. Qed.

Lemma poll_obs_no_iteration p srcs : OIteration ∉ poll_obs p srcs.
Proof.
  induction srcs as [|src srcs IH]; simpl; [apply not_elem_of_nil|].
  apply not_elem_of_cons. split; [done|exact IH].
Qed.

Lemma only_flag src src' : flag (only src) src' = true -> src' = src.
Proof. by destruct src, src'. Qed.

Lemma flags_inv_step l s s' :
  queue_inv s -> flags_inv s -> step l s = Some s' -> flags_inv s'.
Proof.
  intros (_ & _ & Hb & _) Hf Hs. unfold step in Hs. unfold flags_inv in *.
  destruct (vm_error s); [done|].
  destruct l as [ie|env|tid e|].
  - destruct (started s) eqn:Hst; [|done].
    rewrite (Hb eq_refl) in Hf.
    destruct (initialize ie s) as [s1|f] eqn:Hi; simplify_eq.
    + apply initialize_returned in Hi as (t & -> & _). simpl.
      split; [by left|done].
    + simpl. by rewrite (Hb eq_refl).
  - destruct (worker s) as [[p f ev]|] eqn:Hwk; [|done].
    unfold worker_step in Hs. simpl in *.
    destruct p; simpl in *.
    + destruct (Service_lock s); simplify_eq. done.
    + subst f.
      pose proof (wait_condition_keep_waiting
                    (observe env (_jvmti_service_queue s)) initial_flags) as Hk.
      pose proof (wait_condition_exit
                    (observe env (_jvmti_service_queue s))) as He.
      destruct (keep_waiting _); simplify_eq; simpl.
      * by destruct (Hk eq_refl) as [_ ->].
      * destruct (He eq_refl) as (src & _ & -> & _). by exists src.
    + destruct (Service_lock s); simplify_eq. done.
    + destruct (has_jvmti_events f); [|by simplify_eq].
      destruct (JvmtiDeferredEventQueue.dequeue _) as [[e q]|]; by simplify_eq.
    + by simplify_eq.
    + by simplify_eq.
    + simplify_eq. unfold perform_if. by destruct (stringtable_work f).
    + simplify_eq. unfold perform_if. by destruct (symboltable_work f).
    + destruct (has_jvmti_events f); [|by simplify_eq].
      destruct (_jvmti_event s); by simplify_eq.
    + by simplify_eq.
    + simplify_eq. unfold perform_if. by destruct (sensors_changed f).
    + simplify_eq. unfold perform_check_if.
      destruct (has_gc_notification_event f) eqn:Hg; [|done].
      destruct (sendNotification_exception env); [|done]. simpl.
      destruct Hf as [src ->].
      by pose proof (only_flag src GCNotification Hg) as <-.
    + simplify_eq. unfold perform_check_if.
      destruct (has_dcmd_notification_event f) eqn:Hg; [|done].
      destruct (send_notification_exception env); [|done]. simpl.
      destruct Hf as [src ->].
      by pose proof (only_flag src DCmdNotification Hg) as <-.
    + simplify_eq. unfold perform_if. by destruct (resolved_method_table_work f).
    + simplify_eq. unfold perform_if. simpl. split; [by right|done].
    + done.
  - destruct (Service_lock s); simplify_eq. simpl.
    destruct (worker s) as [w|].
    + destruct (pc w); try done.
      split; [apply Hf|].
      intros Hin. apply Hf. apply elem_of_app in Hin as [?|Hin]; [done|].
      by apply list_elem_of_singleton in Hin.
    + intros Hin. apply elem_of_app in Hin as [?|Hin]; [done|].
      by apply list_elem_of_singleton in Hin.
  - destruct (Service_lock s) as [[|tid e]|]; simplify_eq.
    unfold enqueue_body. destruct (ASSERT && _); simpl; [done|].
    assert (Hno : forall h, OIteration ∈ h ++
                    [OEnqueue tid e; ONotifyAll; OUnlock (OwnProducer tid e)] ->
                  OIteration ∈ h).
    { intros h Hin. apply elem_of_app in Hin as [?|Hin]; [done|].
      repeat (apply elem_of_cons in Hin as [?|Hin]; [done|]).
      by apply elem_of_nil in Hin. }
    destruct (worker s) as [w|].
    + destruct (pc w); try done.
      split; [apply Hf|]. intros Hin. apply Hf. by apply Hno.
    + intros Hin. apply Hf. by apply Hno.
Qed.

Lemma iter_inv_boot : iter_inv boot.
Proof. done. Qed.

Lemma current_iteration_quiet h l :
  OIteration ∉ l -> current_iteration (h ++ l) = current_iteration h ++ l.
Proof.
  rewrite current_iteration_app. generalize (current_iteration h).
  induction l as [|o l IH]; intros acc Hl; simpl.
  - by rewrite app_nil_r.
  - apply not_elem_of_cons in Hl as [Ho Hl].
    destruct o; try done; rewrite IH by done; by rewrite <- app_assoc.
Qed.

Lemma filter_snoc {A} (f : A -> bool) l x :
  List.filter f (l ++ [x]) = List.filter f l ++ (if f x then [x] else []).
Proof. by rewrite List.filter_app. Qed.

Lemma done_before_subseq p : sublist (done_before p) dispatch_order.
Proof.
  destruct p as [| | | | | | | | | | | | | | |[]]; vm_compute;
    repeat first [ apply sublist_nil_l | apply sublist_skip | apply sublist_cons ].
Qed.

Lemma iter_ok_skip f l x cur :
  iter_ok f l cur -> flag f x = false -> iter_ok f (l ++ [x]) cur.
Proof.
  intros (H1 & H2 & H3) Hx. split; [|done].
  by rewrite filter_snoc, Hx, app_nil_r.
Qed.

Lemma iter_ok_work f l x cur obs :
  iter_ok f l cur -> flag f x = true -> performed obs = [x] -> polls obs = [] ->
  iter_ok f (l ++ [x]) (cur ++ obs).
Proof.
  intros (H1 & H2 & H3) Hx Hp Hq. split; [|split].
  - by rewrite performed_app, filter_snoc, Hx, H1, Hp.
  - by rewrite polls_precede_performs_app.
  - intros src Hs. rewrite polls_app, Hq, app_nil_r. by apply H3.
Qed.

Lemma iter_ok_quiet f l cur obs :
  iter_ok f l cur -> performed obs = [] -> polls obs = [] ->
  iter_ok f l (cur ++ obs).
Proof.
  intros (H1 & H2 & H3) Hp Hq. split; [|split].
  - by rewrite performed_app, Hp, app_nil_r.
  - by rewrite polls_precede_performs_app.
  - intros src Hs. rewrite polls_app, Hq, app_nil_r. by apply H3.
Qed.

Lemma iter_ok_polls f cur p :
  iter_ok f [] cur ->
  iter_ok (cond_flags (wait_condition p f)) []
    (cur ++ poll_obs p (polled (wait_condition p f))).
Proof.
  intros (H1 & H2 & H3).
  destruct (poll_obs_silent p (polled (wait_condition p f)))
    as (_ & _ & _ & _ & E & _).
  assert (Hp : performed (cur ++ poll_obs p (polled (wait_condition p f))) = []).
  { by rewrite performed_app, E, H1. }
  split; [done|]. split; [by apply polls_precede_performs_idle|].
  intros src Hs. rewrite polls_app. apply elem_of_app.
  destruct (wait_condition_flag p f src Hs) as [Hf|[Ha Hin]].
  - left. by apply H3.
  - right. rewrite polls_poll_obs. apply list_elem_of_In, in_map_iff.
    exists src. split; [by rewrite Ha|]. by apply list_elem_of_In.
Qed.

Ltac iter_step l x :=
  simplify_eq; unfold perform_if, perform_check_if; simpl;
  repeat match goal with
         | |- context [if ?b then _ else _] => destruct b eqn:?
         end;
  simpl; rewrite ?current_iteration_app; simpl; rewrite <- ?app_assoc; simpl;
  first [ by apply (iter_ok_work _ l x)
        | by apply (iter_ok_skip _ l x)
        | by apply iter_ok_quiet
        | done ].

Lemma iter_inv_step l s s' :
  queue_inv s -> iter_inv s -> step l s = Some s' -> iter_inv s'.
Proof.
  intros (_ & _ & Hb & _) Hi Hs. unfold step in Hs. unfold iter_inv in *.
  destruct (vm_error s); [done|].
  destruct l as [ie|env|tid e|].
  - destruct (started s) eqn:Hst; [|done].
    rewrite (Hb eq_refl) in Hi.
    destruct (initialize ie s) as [s1|f] eqn:Hin; simplify_eq.
    + apply initialize_returned in Hin as (t & -> & _). simpl.
      split; [done|]. split; [by apply polls_precede_performs_idle|].
      by intros [].
    + simpl. by rewrite (Hb eq_refl).
  - destruct (worker s) as [[p f ev]|] eqn:Hwk; [|done].
    unfold worker_step in Hs. simpl in *.
    destruct p; simpl in *.
    + destruct (Service_lock s); simplify_eq. simpl.
      rewrite current_iteration_app. simpl.
      split; [done|]. split; [done|]. by intros [].
    + destruct (keep_waiting _); simplify_eq; simpl.
      * rewrite current_iteration_app. simpl.
        rewrite current_iteration_quiet by apply poll_obs_no_iteration.
        rewrite <- app_assoc. apply iter_ok_quiet; [|done..].
        by apply iter_ok_polls.
      * rewrite current_iteration_quiet by apply poll_obs_no_iteration.
        by apply iter_ok_polls.
    + destruct (Service_lock s); iter_step (@nil Source) Sensors.
    + destruct (has_jvmti_events f); [|by simplify_eq].
      destruct (JvmtiDeferredEventQueue.dequeue _) as [[e q]|];
        iter_step (@nil Source) Sensors.
    + iter_step (@nil Source) Sensors.
    + iter_step (@nil Source) Sensors.
    + iter_step (@nil Source) StringTableWork.
    + iter_step [StringTableWork] SymbolTableWork.
    + destruct (has_jvmti_events f) eqn:Hj.
      * destruct (_jvmti_event s);
          iter_step [StringTableWork; SymbolTableWork] JvmtiEvents.
      * iter_step [StringTableWork; SymbolTableWork] JvmtiEvents.
    + iter_step (@nil Source) Sensors.
    + iter_step [StringTableWork; SymbolTableWork; JvmtiEvents] Sensors.
    + iter_step [StringTableWork; SymbolTableWork; JvmtiEvents; Sensors]
        GCNotification.
    + iter_step [StringTableWork; SymbolTableWork; JvmtiEvents; Sensors;
                 GCNotification] DCmdNotification.
    + iter_step [StringTableWork; SymbolTableWork; JvmtiEvents; Sensors;
                 GCNotification; DCmdNotification] ResolvedMethodTableWork.
    + iter_step [StringTableWork; SymbolTableWork; JvmtiEvents; Sensors;
                 GCNotification; DCmdNotification; ResolvedMethodTableWork]
        ProtectionDomainTableWork.
    + done.
  - destruct (Service_lock s); simplify_eq. simpl.
    rewrite current_iteration_app. simpl.
    destruct (worker s) as [w|].
    + by apply iter_ok_quiet.
    + by rewrite performed_app, Hi.
  - destruct (Service_lock s) as [[|tid e]|]; simplify_eq.
    unfold enqueue_body. destruct (ASSERT && _); simpl; [done|].
    rewrite current_iteration_app. simpl.
    destruct (worker s) as [w|].
    + rewrite <- !app_assoc. by apply iter_ok_quiet.
    + by rewrite !performed_app, Hi.
Qed.

Lemma reachable_inv s : reachable s -> inv s.
Proof.
  intros [ls Hr].
  apply (run_invariant inv) with ls boot; [| |done].
  - intros l s1 s2 (Hq & Hf & Hi) Hs. split; [|split].
    + by apply queue_inv_step with l s1.
    + by apply flags_inv_step with l s1.
    + by apply iter_inv_step with l s1.
  - split; [apply queue_inv_boot|]. split; [apply flags_inv_boot|done].
Qed.


Lemma dispatch_obs_snoc slot0 f p p' x :
  done_before p' = done_before p ++ [x] ->
  terminal p = false ->
  dispatch_obs slot0 f p'
  = dispatch_obs slot0 f p
    ++ (if flag f x then work_obs slot0 x else [])
    ++ match p' with
       | WReturned _ => [OReturn]
       | _ => []
       end.
Proof.
  unfold dispatch_obs. intros -> Hp. rewrite flat_map_app. simpl.
  rewrite !app_nil_r. destruct p; try done; by rewrite app_nil_r, <- ?app_assoc.
Qed.

Lemma dispatch_step env h0 slot0 f ev p s :
  dispatching h0 slot0 f ev p s ->
  in_dispatch p = true ->
  (has_jvmti_events f = true -> is_Some slot0) ->
  exists s', step (LWorker env) s = Some s' /\
             dispatching h0 slot0 f ev (next_pc env f p) s'.
Proof.
  intros (Hv & Hw & Hh & Hs1 & Hs2) Hp Hj.
  unfold step. rewrite Hv, Hw. unfold worker_step, dispatching.
  destruct p; try done; simpl in *.
  - eexists; split; [done|]. unfold perform_if.
    rewrite (dispatch_obs_snoc slot0 f WStringTable WSymbolTable StringTableWork)
      by done. simpl.
    destruct (stringtable_work f); simpl; rewrite Hh, ?app_nil_r.
    all: repeat split; try done; try (intros; apply Hs1; lia).
    all: by rewrite <- ?app_assoc.
  - eexists; split; [done|]. unfold perform_if.
    rewrite (dispatch_obs_snoc slot0 f WSymbolTable WPost SymbolTableWork)
      by done. simpl.
    destruct (symboltable_work f); simpl; rewrite Hh, ?app_nil_r.
    all: repeat split; try done; try (intros; apply Hs1; lia).
    all: by rewrite <- ?app_assoc.
  - rewrite (Hs1 ltac:(lia)).
    destruct (has_jvmti_events f) eqn:Ej.
    + destruct (Hj eq_refl) as [e ->].
      eexists; split; [done|].
      rewrite (dispatch_obs_snoc (Some e) f WPost WReset JvmtiEvents) by done.
      simpl. rewrite Ej, Hh. simpl.
      repeat split; try done; try (intros; apply Hs1; lia); try lia.
      by rewrite <- ?app_assoc.
    + eexists; split; [done|].
      rewrite (dispatch_obs_snoc slot0 f WPost WSensors JvmtiEvents) by done.
      simpl. rewrite Ej, Hh, ?app_nil_r.
      repeat split; try done; lia.
  - eexists; split; [done|]. simpl.
    repeat split; try done; lia.
  - eexists; split; [done|]. unfold perform_if.
    rewrite (dispatch_obs_snoc slot0 f WSensors WGC Sensors) by done. simpl.
    destruct (sensors_changed f); simpl; rewrite Hh, ?app_nil_r.
    all: repeat split; try done; try lia.
    all: by rewrite <- ?app_assoc.
  - eexists; split; [done|]. unfold perform_check_if.
    destruct (has_gc_notification_event f) eqn:Ef,
      (sendNotification_exception env); simpl.
    1: rewrite (dispatch_obs_snoc slot0 f WGC (WReturned GCNotification)
                  GCNotification) by done.
    2-4: rewrite (dispatch_obs_snoc slot0 f WGC WDCmd GCNotification) by done.
    all: simpl; rewrite Ef, Hh, ?app_nil_r; simpl.
    all: repeat split; try done; try lia.
    all: by rewrite <- ?app_assoc.
  - eexists; split; [done|]. unfold perform_check_if.
    destruct (has_dcmd_notification_event f) eqn:Ef,
      (send_notification_exception env); simpl.
    1: rewrite (dispatch_obs_snoc slot0 f WDCmd (WReturned DCmdNotification)
                  DCmdNotification) by done.
    2-4: rewrite (dispatch_obs_snoc slot0 f WDCmd WResolved DCmdNotification)
      by done.
    all: simpl; rewrite Ef, Hh, ?app_nil_r; simpl.
    all: repeat split; try done; try lia.
    all: by rewrite <- ?app_assoc.
  - eexists; split; [done|]. unfold perform_if.
    rewrite (dispatch_obs_snoc slot0 f WResolved WProtection
               ResolvedMethodTableWork) by done. simpl.
    destruct (resolved_method_table_work f); simpl; rewrite Hh, ?app_nil_r.
    all: repeat split; try done; try lia.
    all: by rewrite <- ?app_assoc.
  - eexists; split; [done|]. unfold perform_if.
    rewrite (dispatch_obs_snoc slot0 f WProtection WStart
               ProtectionDomainTableWork) by done. simpl.
    destruct (protection_domain_table_work f); simpl; rewrite Hh, ?app_nil_r.
    all: repeat split; try done; try lia.
    all: by rewrite <- ?app_assoc.
Qed.

Lemma next_pc_cases env f p :
  in_dispatch p = true ->
  exit_pc env f (next_pc env f p) \/
  (in_dispatch (next_pc env f p) = true /\
   terminal (next_pc env f p) = false /\
   remaining (next_pc env f p) < remaining p).
Proof.
  unfold exit_pc.
  destruct p; try done; simpl; intros _.
  all: try (right; repeat split; done || lia).
  - right. destruct (has_jvmti_events f); simpl; repeat split; done || lia.
  - destruct (has_gc_notification_event f), (sendNotification_exception env);
      simpl; first [ by left; right; left | right; repeat split; done || lia ].
  - destruct (has_dcmd_notification_event f), (send_notification_exception env);
      simpl; first [ by left; right; right | right; repeat split; done || lia ].
  - by left; left.
Qed.

Lemma exit_pc_terminal env f p : exit_pc env f p -> terminal p = true.
Proof. by intros [->|[(-> & _)|(-> & _)]]. Qed.

Lemma run_worker_dispatch env h0 slot0 f ev fuel :
  forall p s,
    dispatching h0 slot0 f ev p s ->
    in_dispatch p = true ->
    remaining p <= fuel ->
    (has_jvmti_events f = true -> is_Some slot0) ->
    exists s' p',
      run_worker fuel env s = Some s' /\
      dispatching h0 slot0 f ev p' s' /\ exit_pc env f p'.
Proof.
  induction fuel as [|fuel IH]; intros p s Hd Hp Hr Hj.
  - destruct p; try done; simpl in Hr; lia.
  - destruct (dispatch_step env h0 slot0 f ev p s Hd Hp Hj) as (s1 & Hs & Hd1).
    simpl. rewrite Hs.
    pose proof Hd1 as (_ & Hw1 & _). rewrite Hw1.
    destruct (next_pc_cases env f p Hp) as [He|(Hin & Ht & Hlt)].
    + exists s1, (next_pc env f p). split; [|done].
      apply exit_pc_terminal in He. by destruct (next_pc env f p).
    + destruct (IH (next_pc env f p) s1 Hd1 Hin ltac:(lia) Hj)
        as (s' & p' & Hrun & Hd' & He').
      exists s', p'. split; [|done].
      by destruct (next_pc env f p).
Qed.

Lemma performed_dispatch_obs slot0 f p :
  (has_jvmti_events f = true -> is_Some slot0) ->
  performed (dispatch_obs slot0 f p) = List.filter (flag f) (done_before p).
Proof.
  intros Hj. unfold dispatch_obs. rewrite performed_app.
  assert (performed match p with WReturned _ => [OReturn] | _ => [] end = [])
    as -> by (by destruct p).
  rewrite app_nil_r.
  induction (done_before p) as [|src l IH]; [done|].
  simpl. rewrite performed_app, IH.
  destruct (flag f src) eqn:Hf; [|done].
  destruct src; try done.
  destruct (Hj Hf) as [e ->]. done.
Qed.

Lemma polls_dispatch_obs slot0 f p : polls (dispatch_obs slot0 f p) = [].
Proof.
  unfold dispatch_obs. rewrite polls_app.
  assert (polls match p with WReturned _ => [OReturn] | _ => [] end = [])
    as -> by (by destruct p).
  rewrite app_nil_r.
  induction (done_before p) as [|src l IH]; [done|].
  simpl. rewrite polls_app, IH, app_nil_r.
  destruct (flag f src); [|done]. by destruct src, slot0.
Qed.

(** ** Consequences of the invariants *)

(** The events dequeued are those posted, then at most one in flight. *)
Lemma queue_inv_in_flight s :
  queue_inv s ->
  exists fl, dequeued (history s) = posted (history s) ++ fl /\
             (fl = [] \/ exists e, fl = [e] /\
                (_jvmti_event s = Some e \/ Service_lock s = Some OwnWorker)).
Proof.
  intros (_ & _ & _ & Hw).
  assert (Hnone : dequeued (history s) = posted (history s) ->
                  exists fl, dequeued (history s) = posted (history s) ++ fl /\
                    (fl = [] \/ exists e, fl = [e] /\
                       (_jvmti_event s = Some e \/
                        Service_lock s = Some OwnWorker))).
  { intros E. exists (@nil Event). rewrite app_nil_r. by split; [|left]. }
  destruct (worker s) as [w|]; [|apply Hnone, Hw].
  destruct Hw as [Hlk Hw].
  destruct (pc w) eqn:Hpc; simpl in *.
  all: try (apply Hnone; by intuition).
  all: try (destruct (has_jvmti_events (flags w));
            [ destruct Hw as (e & ? & ?); exists [e]; by eauto 6
            | apply Hnone; by intuition ]).
  destruct Hw as (_ & _ & e & _ & ?). exists [e]. split; [done|].
  right. exists e. split; [done|]. right. by apply Hlk.
Qed.

Lemma enqueued_by_single tid h :
  (forall t e, OEnqueue t e ∈ h -> t = tid) -> enqueued_by tid h = enqueued h.
Proof.
  induction h as [|o h IH]; intros Hall; [done|].
  simpl. rewrite IH.
  - destruct o; try done. simpl.
    rewrite decide_True; [done|]. eapply Hall. by left.
  - intros t e Hin. eapply Hall. by right.
Qed.

Lemma filter_sublist {A} (g : A -> bool) l : sublist (List.filter g l) l.
Proof.
  induction l as [|x l IH]; simpl; [constructor|].
  destruct (g x); by constructor.
Qed.

Lemma dispatch_order_NoDup : NoDup dispatch_order.
Proof. apply NoDup_ListNoDup. repeat constructor; simpl; intuition congruence. Qed.

(** With the lock free, the event dequeued and not yet posted is in the
    slot; between [post] and the reset the slot still holds the event
    just posted. *)
Lemma in_flight_slot s :
  queue_inv s ->
  Service_lock s = None ->
  dequeued (history s) = posted (history s) ++ option_list (_jvmti_event s) \/
  exists e w,
    worker s = Some w /\ pc w = WReset /\ _jvmti_event s = Some e /\
    dequeued (history s) = posted (history s) /\
    last (posted (history s)) = Some e.
Proof.
  intros (_ & _ & _ & Hw) Hfree.
  destruct (worker s) as [w|] eqn:Ew.
  - destruct Hw as [Hlk Hw]. rewrite Hfree in Hlk.
    destruct (pc w) eqn:Hpc; simpl in *.
    all: try (by destruct Hlk as [_ Hlk]; specialize (Hlk eq_refl)).
    all: try (left; destruct Hw as (-> & -> & _); simpl; by rewrite app_nil_r).
    all: try (left; destruct Hw as (-> & ->); simpl; by rewrite app_nil_r).
    all: try (left; destruct (has_jvmti_events (flags w));
              [ destruct Hw as (e & -> & ->); by simpl
              | destruct Hw as (-> & ->); simpl; by rewrite app_nil_r ]).
    right. destruct Hw as (Hd & e & h' & Hs & Hp).
    exists e, w. repeat split; try done. by rewrite Hp, last_snoc.
  - left. destruct Hw as (_ & -> & ->). simpl. by rewrite app_nil_r.
Qed.

(** ** The claims *)

(** C1.  In every execution the events are dequeued, and delivered, in the
    order in which the monitor linearized the calls of
    [enqueue_deferred_event]: the events enqueued are a prefix of those of
    the producers' lock acquisitions, the events dequeued followed by the
    queue are the events enqueued, and the events posted are a prefix of
    those dequeued.  When one producer made all the calls, that is its own
    order of calls. *)
Theorem fifo_delivery_order (s : State) :
  reachable s ->
  enqueued (history s) `prefix_of` linearized (history s) /\
  enqueued (history s) = dequeued (history s) ++ _jvmti_service_queue s /\
  posted (history s) `prefix_of` dequeued (history s) /\
  forall tid,
    (forall t e, OEnqueue t e ∈ history s -> t = tid) ->
    enqueued_by tid (history s)
    = dequeued (history s) ++ _jvmti_service_queue s.
Proof.
  intros Hr. destruct (reachable_inv s Hr) as (Hq & _ & _).
  pose proof Hq as (H1 & H2 & _).
  split; [by eexists|]. split; [done|]. split.
  - destruct (queue_inv_in_flight s Hq) as (fl & -> & _). by eexists.
  - intros tid Hall. by rewrite enqueued_by_single.
Qed.

(** C2.  In every execution the events enqueued are, as a multiset, the
    events dequeued together with those still queued, and the events
    dequeued once the queue is empty; a step changes the queue only by
    appending the event of the producer that holds [Service_lock] or by
    removing the head while the service thread holds it. *)
Theorem no_loss_no_duplication (s : State) :
  reachable s ->
  enqueued (history s) ≡ₚ dequeued (history s) ++ _jvmti_service_queue s /\
  (_jvmti_service_queue s = [] ->
   dequeued (history s) ≡ₚ enqueued (history s)) /\
  forall l s',
    step l s = Some s' ->
    _jvmti_service_queue s' <> _jvmti_service_queue s ->
    match l with
    | LWorker _ =>
        Service_lock s = Some OwnWorker /\
        exists e, _jvmti_service_queue s = e :: _jvmti_service_queue s' /\
                  dequeued (history s') = dequeued (history s) ++ [e]
    | LEnqueue =>
        exists tid e,
          Service_lock s = Some (OwnProducer tid e) /\
          _jvmti_service_queue s' = _jvmti_service_queue s ++ [e] /\
          enqueued (history s') = enqueued (history s) ++ [e]
    | _ => False
    end.
Proof.
  intros Hr. destruct (reachable_inv s Hr) as (Hq & _ & _).
  pose proof Hq as (H1 & _ & _ & Hw).
  split; [by rewrite H1|]. split; [intros E; by rewrite H1, E, app_nil_r|].
  intros l s' Hs Hne. unfold step in Hs.
  destruct (vm_error s); [done|].
  destruct l as [ie|env|tid e|].
  - destruct (started s); [|done].
    destruct (initialize ie s) as [s1|f] eqn:Hi; simplify_eq; try done.
    by apply initialize_returned in Hi as (t & -> & _).
  - destruct (worker s) as [[p f ev]|]; [|done].
    destruct Hw as [Hlk Hw]. unfold worker_step in Hs; simpl in *.
    destruct p; simpl in *;
      try (by simplify_eq);
      try (by destruct (Service_lock s); simplify_eq).
    + by destruct (keep_waiting _); simplify_eq.
    + split; [by apply Hlk|].
      destruct (has_jvmti_events f); [|by simplify_eq].
      destruct (_jvmti_service_queue s) as [|e q] eqn:Eq; simpl in Hs;
        simplify_eq.
      exists e. simpl. by rewrite dequeued_app.
    + unfold perform_if in Hs. by destruct (stringtable_work f); simplify_eq.
    + unfold perform_if in Hs. by destruct (symboltable_work f); simplify_eq.
    + destruct (has_jvmti_events f); [|by simplify_eq].
      by destruct (_jvmti_event s); simplify_eq.
    + unfold perform_if in Hs. by destruct (sensors_changed f); simplify_eq.
    + unfold perform_check_if in Hs.
      by destruct (has_gc_notification_event f),
           (sendNotification_exception env); simplify_eq.
    + unfold perform_check_if in Hs.
      by destruct (has_dcmd_notification_event f),
           (send_notification_exception env); simplify_eq.
    + unfold perform_if in Hs.
      by destruct (resolved_method_table_work f); simplify_eq.
    + unfold perform_if in Hs.
      by destruct (protection_domain_table_work f); simplify_eq.
  - by destruct (Service_lock s); simplify_eq.
  - destruct (Service_lock s) as [[|tid e]|]; simplify_eq.
    exists tid, e. split; [done|].
    unfold enqueue_body in *. destruct (ASSERT && _); simpl in *; [done|].
    by rewrite enqueued_app.
Qed.

(** C3, as the code has it.  Whenever [Service_lock] is free, a call of
    [oops_do] with a non-null [cf] goes through and visits the in-flight
    slot, then the queue; what it visits is exactly the list of events
    enqueued and not yet posted, each once, except between [post] and the
    reset of the slot, when the event just posted is visited as well. *)
Theorem oops_do_visits_pending_once {CodeBlobClosure : Type}
    (cf : CodeBlobClosure) (s : State) :
  reachable s ->
  Service_lock s = None ->
  enqueued (history s) = posted (history s) ++ pending s /\
  exists visited,
    oops_do (Some cf) s = Some visited /\
    visited = option_list (_jvmti_event s) ++ _jvmti_service_queue s /\
    (visited = pending s \/
     exists e w,
       worker s = Some w /\ pc w = WReset /\
       last (posted (history s)) = Some e /\ visited = e :: pending s).
Proof.
  intros Hr Hfree. destruct (reachable_inv s Hr) as (Hq & _ & _).
  pose proof Hq as (H1 & _).
  assert (Hvis : oops_do (Some cf) s
                 = Some (option_list (_jvmti_event s) ++ _jvmti_service_queue s)).
  { unfold oops_do. rewrite Hfree. by destruct (_jvmti_event s). }
  destruct (in_flight_slot s Hq Hfree) as [Hd|(e & w & Ew & Hpc & Hs & Hd & Hl)].
  - assert (Hpend : pending s
                    = option_list (_jvmti_event s) ++ _jvmti_service_queue s).
    { unfold pending. by rewrite H1, Hd, <- app_assoc, drop_app_length. }
    split; [by rewrite Hpend, H1, Hd, <- app_assoc|].
    eexists. split; [done|]. split; [done|]. by left.
  - assert (Hpend : pending s = _jvmti_service_queue s).
    { unfold pending. by rewrite H1, Hd, drop_app_length. }
    split; [by rewrite Hpend, H1, Hd|].
    eexists. split; [done|]. split; [done|]. right.
    exists e, w. rewrite Hpend, Hs. done.
Qed.

Ltac not_member H :=
  repeat (apply elem_of_cons in H as [H|H]; [discriminate H|]);
  by apply elem_of_nil in H.

Ltac member := apply list_elem_of_In; simpl; tauto.

(** C4, as the code has it.  One evaluation of the condition calls the
    predicates in the order written, starting with the first, and stops
    with the first that answers [true]; the locals of the predicates
    called hold their answers, the locals of the others keep the value
    they had; the loop goes on exactly when all eight answered [false]. *)
Theorem wait_condition_short_circuit (p : Preds) (f : Flags) :
  polled (wait_condition p f) = up_to_first_true p condition_order /\
  head (polled (wait_condition p f)) = Some Sensors /\
  (forall src, src ∈ polled (wait_condition p f) ->
               flag (cond_flags (wait_condition p f)) src = answer p src) /\
  (forall src, src ∉ polled (wait_condition p f) ->
               flag (cond_flags (wait_condition p f)) src = flag f src) /\
  (keep_waiting (wait_condition p f) = true <->
   forall src, answer p src = false) /\
  (keep_waiting (wait_condition p f) = false ->
   exists src, last (polled (wait_condition p f)) = Some src /\
               answer p src = true).
Proof.
  split; [apply wait_condition_polled|].
  destruct p as [a b c d e g h i]. unfold wait_condition. simpl.
  destruct a; [|destruct b; [|destruct c; [|destruct d; [|destruct e;
    [|destruct g; [|destruct h; [|destruct i]]]]]]]; simpl.
  all: split; [done|].
  all: split; [intros [] Hin; first [done|not_member Hin]|].
  all: split; [intros [] Hin; first [done|exfalso; apply Hin; member]|].
  all: split;
    [ split;
      [ first [ discriminate 1 | by intros _ [] ]
      | intros Hall;
        pose proof (Hall Sensors); pose proof (Hall JvmtiEvents);
        pose proof (Hall GCNotification); pose proof (Hall DCmdNotification);
        pose proof (Hall StringTableWork); pose proof (Hall SymbolTableWork);
        pose proof (Hall ResolvedMethodTableWork);
        pose proof (Hall ProtectionDomainTableWork);
        simpl in *; congruence ]
    | ].
  all: first
    [ discriminate 1
    | intros _;
      first [ by exists Sensors | by exists JvmtiEvents
            | by exists GCNotification | by exists DCmdNotification
            | by exists StringTableWork | by exists SymbolTableWork
            | by exists ResolvedMethodTableWork
            | by exists ProtectionDomainTableWork ] ].
Qed.

Lemma filter_sublist_mono {A} (g : A -> bool) l1 l2 :
  sublist l1 l2 -> sublist (List.filter g l1) (List.filter g l2).
Proof.
  induction 1 as [|x l1 l2 _ IH|x l1 l2 _ IH]; simpl.
  - constructor.
  - destruct (g x); [by constructor|done].
  - destruct (g x); [by constructor|done].
Qed.

(** C5.  From the first [if] of the dispatch phase, with any values of
    the locals, the service thread running on its own reaches the top of
    the loop again, or returns through [CHECK]; what it did in between is
    the work calls of the sources whose local is set, in the order
    string table, symbol table, deferred event ([post] on the slot),
    sensors, GC notification, diagnostic-command notification,
    resolved-method table, protection-domain table, cut after the call
    that left a pending exception; no predicate is called in between. *)
Theorem dispatch_priority_order (env : WorkerEnv) (s : State) (w : Activation) :
  vm_error s = None ->
  worker s = Some w ->
  pc w = WStringTable ->
  (has_jvmti_events (flags w) = true -> is_Some (_jvmti_event s)) ->
  exists s' w',
    run_worker 9 env s = Some s' /\
    worker s' = Some w' /\
    flags w' = flags w /\
    exit_pc env (flags w) (pc w') /\
    history s' = history s ++ dispatch_obs (_jvmti_event s) (flags w) (pc w') /\
    performed (dispatch_obs (_jvmti_event s) (flags w) (pc w'))
    = List.filter (flag (flags w)) (done_before (pc w')) /\
    sublist (performed (dispatch_obs (_jvmti_event s) (flags w) (pc w')))
      dispatch_order /\
    polls (dispatch_obs (_jvmti_event s) (flags w) (pc w')) = [] /\
    (pc w' = WStart ->
     performed (dispatch_obs (_jvmti_event s) (flags w) (pc w'))
     = List.filter (flag (flags w)) dispatch_order).
Proof.
  intros Hv Hw Hp Hj. destruct w as [p f ev]; cbn [pc flags] in *; subst p.
  assert (Hd : dispatching (history s) (_jvmti_event s) f ev WStringTable s).
  { split; [exact Hv|]. split; [exact Hw|]. split; [|by split].
    unfold dispatch_obs. cbn. by rewrite app_nil_r. }
  assert (Hfuel : remaining WStringTable <= 9) by (cbn; lia).
  destruct (run_worker_dispatch env _ _ f ev 9 WStringTable s Hd eq_refl
              Hfuel Hj) as (s' & p' & Hrun & Hd' & He).
  destruct Hd' as (_ & Hw' & Hh' & _).
  exists s', (mkActivation p' f ev). cbn [pc flags].
  pose proof (performed_dispatch_obs (_jvmti_event s) f p' Hj) as Hperf.
  split; [exact Hrun|]. split; [exact Hw'|]. split; [reflexivity|].
  split; [exact He|]. split; [exact Hh'|]. split; [exact Hperf|].
  split; [|split].
  - rewrite Hperf. etrans; [apply filter_sublist|apply done_before_subseq].
  - apply polls_dispatch_obs.
  - intros ->. exact Hperf.
Qed.

(** C6.  In every execution, within the iteration in progress the work
    call of a source is made at most once, only for a source whose local
    is set, and that local was set by a predicate call of this same
    iteration that answered [true]; all the predicate calls of the
    iteration come before its first work call. *)
Theorem single_dispatch_per_iteration (s : State) (w : Activation) :
  reachable s ->
  worker s = Some w ->
  NoDup (performed (current_iteration (history s))) /\
  (forall src,
     src ∈ performed (current_iteration (history s)) ->
     flag (flags w) src = true /\
     (src, true) ∈ polls (current_iteration (history s))) /\
  polls_precede_performs (current_iteration (history s)) = true.
Proof.
  intros Hr Hw. destruct (reachable_inv s Hr) as (_ & _ & Hi).
  unfold iter_inv in Hi. rewrite Hw in Hi. destruct Hi as (H1 & H2 & H3).
  split; [|split; [|done]].
  - rewrite H1. apply (sublist_NoDup _ dispatch_order);
      [apply dispatch_order_NoDup|].
    transitivity (done_before (pc w));
      [apply filter_sublist|apply done_before_subseq].
  - intros src Hin. rewrite H1 in Hin.
    apply list_elem_of_In, filter_In in Hin as [_ Hf]. auto.
Qed.

(** C7.  A call of [enqueue_deferred_event] made while [_instance] is
    NULL stops a debug build on the assertion, with the queue untouched
    and nothing running afterwards; a call made once [_instance] is set
    (as it is after [initialize] has returned) takes the lock, appends
    the event to the queue, calls [notify_all] and releases the lock. *)
Theorem enqueue_deferred_event_contract (tid : nat) (event : Event) (s : State) :
  vm_error s = None ->
  Service_lock s = None ->
  (ASSERT = true -> _instance s = None ->
   exists s',
     enqueue_deferred_event tid event s = Some s' /\
     vm_error s'
     = Some (AssertionFailure
               "cannot enqueue events before the service thread runs") /\
     _jvmti_service_queue s' = _jvmti_service_queue s /\
     history s' = history s ++ [OLock (OwnProducer tid event)] /\
     forall l, step l s' = None) /\
  (is_Some (_instance s) ->
   exists s',
     enqueue_deferred_event tid event s = Some s' /\
     vm_error s' = None /\
     _jvmti_service_queue s'
     = JvmtiDeferredEventQueue.enqueue (_jvmti_service_queue s) event /\
     _jvmti_service_queue s' = _jvmti_service_queue s ++ [event] /\
     history s'
     = history s ++ [OLock (OwnProducer tid event); OEnqueue tid event;
                     ONotifyAll; OUnlock (OwnProducer tid event)] /\
     Service_lock s' = None) /\
  (forall ie s0 s1, initialize ie s0 = InitReturned s1 -> is_Some (_instance s1)).
Proof.
  intros Hv Hl.
  assert (Hrun : enqueue_deferred_event tid event s
                 = Some (enqueue_body tid event
                           (log [OLock (OwnProducer tid event)]
                              (set_lock (Some (OwnProducer tid event)) s)))).
  { unfold enqueue_deferred_event, run, step. rewrite Hv, Hl. simpl.
    by rewrite Hv. }
  rewrite Hrun. unfold enqueue_body. simpl.
  split; [|split].
  - intros -> Hi. rewrite Hi. simpl.
    eexists. split; [done|]. simpl. repeat split; try done.
  - intros [t Hi]. rewrite Hi. simpl.
    rewrite andb_false_r.
    eexists. split; [done|]. simpl.
    repeat split; try done. by rewrite <- app_assoc.
  - intros ie s0 s1 Hi. apply initialize_returned in Hi as (t & -> & _).
    simpl. eauto.
Qed.

(** C8.  When [new ServiceThread] yields NULL or a thread without an OS
    thread, [initialize] does not return: it calls
    [vm_exit_during_initialization] with java.lang.OutOfMemoryError.  In
    the transition system the failure is recorded, no instance is
    installed, no thread is added or started, and no step is enabled
    afterwards: there is no second attempt. *)
Theorem initialize_thread_creation_failure (ie : InitEnv) (s : State) :
  create_from_str_ok ie = true ->
  construct_new_instance_ok ie = true ->
  (new_ServiceThread ie = None \/
   exists t, new_ServiceThread ie = Some t /\ osthread t = None) ->
  initialize ie s
  = InitStopped (VmExitDuringInitialization "java.lang.OutOfMemoryError"
                   (native_thread_creation_failed_msg ie)) /\
  (vm_error s = None -> started s = [] ->
   exists s',
     step (LInitialize ie) s = Some s' /\
     vm_error s'
     = Some (VmExitDuringInitialization "java.lang.OutOfMemoryError"
               (native_thread_creation_failed_msg ie)) /\
     _instance s' = _instance s /\
     threads_list s' = threads_list s /\
     started s' = [] /\
     worker s' = worker s /\
     forall l, step l s' = None).
Proof.
  intros H1 H2 H3.
  assert (Hi : initialize ie s
               = InitStopped (VmExitDuringInitialization
                                "java.lang.OutOfMemoryError"
                                (native_thread_creation_failed_msg ie))).
  { unfold initialize. rewrite H1, H2. simpl.
    destruct H3 as [->|(t & -> & ->)]; done. }
  split; [done|]. intros Hv Hst. unfold step. rewrite Hv, Hst, Hi.
  eexists. split; [done|]. simpl. repeat split; try done.
Qed.

(** C9, as the code has it.  [initialize] does not look at [_instance]:
    whenever the two object constructions leave no exception and
    [new ServiceThread] yields a thread with an OS thread, it returns
    normally, whatever the state, with [_instance] set to the new thread
    and that thread added and started after those that were there. *)
Theorem initialize_has_no_reentry_guard (ie : InitEnv) (s : State)
    (t : JavaThread) :
  create_from_str_ok ie = true ->
  construct_new_instance_ok ie = true ->
  new_ServiceThread ie = Some t ->
  is_Some (osthread t) ->
  exists t' s',
    initialize ie s = InitReturned s' /\
    thread_id t' = thread_id t /\ osthread t' = osthread t /\
    threadObj t'
    = Some (mkThreadOop "Service Thread" (thread_id t) NearMaxPriority true) /\
    _instance s' = Some t' /\
    threads_list s' = threads_list s ++ [t'] /\
    started s' = started s ++ [t'] /\
    vm_error s' = vm_error s.
Proof.
  intros H1 H2 H3 [o H4]. unfold initialize. rewrite H1, H2, H3, H4. simpl.
  exists (mkJavaThread (thread_id t) (Some o)
            (Some (mkThreadOop "Service Thread" (thread_id t) NearMaxPriority
                     true))).
  eexists. split; [done|]. done.
Qed.

Lemma only_filter src : List.filter (flag (only src)) dispatch_order = [src].
Proof. by destruct src. Qed.

Lemma only_count src : count_true (all_flags (only src)) = 1.
Proof. by destruct src. Qed.

(** C10.  In every execution, while the service thread is in the wait
    loop all its locals are [false]; once it has left the loop exactly
    one of the nine is [true], the local of the source whose predicate
    ended the evaluation; the iteration in progress has made at most one
    work call, and a finished iteration exactly one.  An evaluation of
    the condition that ends the loop sets the local of the first
    predicate that answered [true] and no other. *)
Theorem one_work_kind_per_iteration (s : State) (w : Activation) :
  reachable s ->
  worker s = Some w ->
  (pc w = WCond \/ pc w = WWait -> flags w = initial_flags) /\
  (past_wait_loop (pc w) = true ->
   count_true (all_flags (flags w)) = 1 /\ exists src, flags w = only src) /\
  length (performed (current_iteration (history s))) <= 1 /\
  (terminal (pc w) = true -> OIteration ∈ history s ->
   length (performed (current_iteration (history s))) = 1) /\
  (forall p,
     keep_waiting (wait_condition p initial_flags) = false ->
     exists src,
       cond_flags (wait_condition p initial_flags) = only src /\
       answer p src = true /\
       last (up_to_first_true p condition_order) = Some src).
Proof.
  intros Hr Hw. destruct (reachable_inv s Hr) as (_ & Hf & Hi).
  unfold flags_inv, iter_inv in *. rewrite Hw in *.
  destruct Hi as (Hperf & _).
  assert (Hone : forall src, flags w = only src ->
                 length (performed (current_iteration (history s))) <= 1).
  { intros src E. rewrite Hperf, E.
    change 1 with (length [src]). rewrite <- (only_filter src).
    apply sublist_length, filter_sublist_mono, done_before_subseq. }
  assert (Hnone : flags w = initial_flags ->
                  length (performed (current_iteration (history s))) <= 1).
  { intros E. rewrite Hperf, E.
    assert (forall l, List.filter (flag initial_flags) l = []) as ->;
      [|simpl; lia].
    induction l as [|x l IH]; [done|]. simpl. by destruct x. }
  assert (Hpast : past_wait_loop (pc w) = true -> exists src, flags w = only src).
  { destruct (pc w); try done; intros _; try exact Hf. by exists site. }
  split; [|split; [|split; [|split]]].
  - by intros [E|E]; rewrite E in Hf.
  - intros Hp. destruct (Hpast Hp) as [src E].
    split; [rewrite E; apply only_count|by exists src].
  - destruct (past_wait_loop (pc w)) eqn:Hp.
    + destruct (Hpast eq_refl) as [src E]. by apply (Hone src).
    + destruct (pc w); try done.
      * destruct Hf as [[?|[src ?]] _]; [by apply Hnone|by apply (Hone src)].
      * by apply Hnone.
      * by apply Hnone.
  - intros Ht Hin. rewrite Hperf.
    destruct (pc w) eqn:E; try done.
    + destruct Hf as [_ Hf]. destruct (Hf Hin) as [src ->].
      change (done_before WStart) with dispatch_order.
      by rewrite only_filter.
    + rewrite Hf. by destruct site.
  - intros p Hk. destruct (wait_condition_exit p Hk) as (src & Ha & Hc & Hl).
    exists src. split; [done|]. split; [done|].
    by rewrite <- (wait_condition_polled p initial_flags).
Qed.

(** ** Further properties of the service thread *)

Lemma run_app (ls1 ls2 : list Label) s :
  run (ls1 ++ ls2) s
  = match run ls1 s with
    | Some s1 => run ls2 s1
    | None => None
    end.
Proof.
  revert s. induction ls1 as [|l ls1 IH]; intros s; simpl; [done|].
  destruct (step l s); [apply IH|done].
Qed.

Lemma reachable_run (ls : list Label) s s' :
  reachable s -> run ls s = Some s' -> reachable s'.
Proof.
  intros [ls0 H0] Hr. exists (ls0 ++ ls). by rewrite run_app, H0.
Qed.

Lemma life_inv_boot : life_inv boot.
Proof. by repeat split. Qed.

Ltac life4 H :=
  split; [|split; [|split]]; first [ done | apply H ].

Lemma life_inv_step (l : Label) s s' :
  queue_inv s -> life_inv s -> step l s = Some s' -> life_inv s'.
Proof.
  intros (_ & _ & Hb & Hw) (Hslot & Hret & Hinst & Hass) Hs.
  unfold step in Hs. destruct (vm_error s) eqn:Hv; [done|].
  assert (Hass' : forall m, @None Failure = Some (AssertionFailure m) ->
            ASSERT = true /\ _instance s = None /\
            m = "cannot enqueue events before the service thread runs"%string /\
            exists tid e, Service_lock s = Some (OwnProducer tid e)) by done.
  destruct l as [ie|env|tid e|].
  - destruct (started s) eqn:Hst; [|done].
    rewrite (Hb eq_refl) in Hw. destruct Hw as (_ & Hn & _).
    destruct (initialize ie s) as [s1|f] eqn:Hi; simplify_eq.
    + apply initialize_returned in Hi as (t & -> & _).
      unfold life_inv; simpl. rewrite Hv, Hn.
      split; [done|]. split; [done|]. split; [by split|done].
    + unfold life_inv; simpl. split; [done|]. split; [done|]. split; [done|].
      intros m Hm. simplify_eq. unfold initialize in Hi.
      by repeat case_match.
  - destruct (worker s) as [[p f ev]|] eqn:Hwk; [|done].
    assert (Hi : _instance s <> None).
    { intros E. apply Hinst in E. done. }
    assert (Hinst' : forall a : Activation, Some a = None <-> _instance s = None)
      by (intros a; split; [done|by intros E]).
    assert (Hkeep : forall p',
              (forall site, p' <> WReturned site) ->
              forall s1, _jvmti_event s1 = _jvmti_event s ->
                _instance s1 = _instance s -> vm_error s1 = None ->
                worker s1 = Some (mkActivation p' f ev) -> life_inv s1).
    { intros p' Hp' s1 E1 E2 E3 E5. unfold life_inv.
      rewrite E1, E2, E3, E5. split; [|split; [|split]]; try done.
      - intros e He. destruct (Hslot e He) as (w & Hw' & ? & ?).
        simplify_eq. eexists. split; [done|]. done.
      - destruct p'; try done. by destruct (Hp' site). }
    unfold worker_step in Hs. destruct Hw as [Hlk Hw]. simpl in *.
    destruct p; simpl in *.
    + destruct (Service_lock s); simplify_eq.
      unfold life_inv; simpl. rewrite Hv. destruct Hw as [-> _].
      life4 Hinst'.
    + destruct Hw as (Hn & _).
      destruct (keep_waiting _); simplify_eq; unfold life_inv; simpl;
        rewrite Hv, Hn; life4 Hinst'.
    + destruct (Service_lock s); simplify_eq.
      unfold life_inv; simpl. rewrite Hv. destruct Hw as [-> _].
      life4 Hinst'.
    + destruct Hw as (Hn & _).
      destruct (has_jvmti_events f).
      * destruct (JvmtiDeferredEventQueue.dequeue _) as [[e q]|]; simplify_eq.
        unfold life_inv; simpl. rewrite Hv, Hn. life4 Hinst'.
      * simplify_eq. unfold life_inv; simpl. rewrite Hv, Hn. life4 Hinst'.
    + destruct Hw as (Hn & Hf & e & He & _). simplify_eq.
      unfold life_inv; simpl. rewrite Hv. split; [|split; [done|split; [apply Hinst'|done]]].
      intros e' He'. eexists. split; [done|]. simpl. split; congruence.
    + simplify_eq. by apply (Hkeep WStringTable).
    + simplify_eq. unfold perform_if.
      apply (Hkeep WSymbolTable); try done; by destruct (stringtable_work f).
    + simplify_eq. unfold perform_if.
      apply (Hkeep WPost); try done; by destruct (symboltable_work f).
    + destruct (has_jvmti_events f).
      * destruct (_jvmti_event s) eqn:Es; simplify_eq.
        by apply (Hkeep WReset).
      * simplify_eq. by apply (Hkeep WSensors).
    + simplify_eq. unfold life_inv; simpl. rewrite Hv. life4 Hinst'.
    + simplify_eq. unfold perform_if.
      apply (Hkeep WGC); try done; by destruct (sensors_changed f).
    + simplify_eq. unfold perform_check_if.
      destruct (has_gc_notification_event f),
        (sendNotification_exception env);
        try (by apply (Hkeep WDCmd)).
      destruct Hw as [Hn _]. unfold life_inv; simpl. rewrite Hv, Hn.
      split; [done|]. split; [by left|split; [apply Hinst'|done]].
    + simplify_eq. unfold perform_check_if.
      destruct (has_dcmd_notification_event f),
        (send_notification_exception env);
        try (by apply (Hkeep WResolved)).
      destruct Hw as [Hn _]. unfold life_inv; simpl. rewrite Hv, Hn.
      split; [done|]. split; [by right|split; [apply Hinst'|done]].
    + simplify_eq. unfold perform_if.
      apply (Hkeep WProtection); try done;
        by destruct (resolved_method_table_work f).
    + simplify_eq. unfold perform_if.
      apply (Hkeep WStart); try done;
        by destruct (protection_domain_table_work f).
    + done.
  - destruct (Service_lock s); simplify_eq.
    unfold life_inv; simpl. rewrite Hv. life4 Hinst.
  - destruct (Service_lock s) as [[|tid e]|] eqn:Hlock; simplify_eq.
    unfold enqueue_body.
    destruct ASSERT eqn:Ha; simpl.
    + destruct (_instance s) as [t|] eqn:Hi; simpl.
      * unfold life_inv; simpl. rewrite Hv, ?Hi. life4 Hinst.
      * unfold life_inv; simpl. rewrite ?Hi, ?Hlock.
        split; [done|]. split; [done|]. split; [done|].
        intros m Hm. simplify_eq. repeat split; eauto.
    + unfold life_inv; simpl. rewrite Hv. life4 Hinst.
Qed.

Lemma reachable_life_inv s : reachable s -> life_inv s.
Proof.
  intros [ls Hr].
  cut (queue_inv s /\ life_inv s); [by intros []|].
  apply (run_invariant (fun s => queue_inv s /\ life_inv s)) with ls boot;
    [|split; [apply queue_inv_boot|apply life_inv_boot]|done].
  intros l s1 s2 [Hq Hf] Hs. split.
  - by apply queue_inv_step with l s1.
  - by apply life_inv_step with l s1.
Qed.


(** X2.  The service thread makes no work call while it holds
    [Service_lock]: a step of it that makes a work call ([post] or the
    work of another source) is made without the lock, and touches neither
    the lock nor the queue. *)
Theorem work_calls_outside_lock (env : WorkerEnv) s s' :
  reachable s ->
  step (LWorker env) s = Some s' ->
  performed (history s') <> performed (history s) ->
  Service_lock s <> Some OwnWorker /\
  Service_lock s' = Service_lock s /\
  _jvmti_service_queue s' = _jvmti_service_queue s.
Proof.
  intros Hr Hs Hne. destruct (reachable_inv s Hr) as ((_ & _ & _ & Hw) & _ & _).
  unfold step in Hs. destruct (vm_error s); [done|].
  destruct (worker s) as [[p f ev]|]; [|done].
  destruct Hw as [Hlk Hw]. unfold worker_step in Hs; simpl in *.
  assert (Hfree : holds_lock p = false -> Service_lock s <> Some OwnWorker).
  { intros E Ho. apply Hlk in Ho. congruence. }
  destruct p; simpl in *.
  - destruct (Service_lock s); simplify_eq. simpl in Hne.
    rewrite performed_app in Hne. simpl in Hne. by rewrite app_nil_r in Hne.
  - destruct (poll_obs_silent (observe env (_jvmti_service_queue s))
                (polled (wait_condition
                           (observe env (_jvmti_service_queue s)) f)))
      as (_ & _ & _ & _ & E & _).
    destruct (keep_waiting _); simplify_eq; simpl in Hne;
      rewrite ?performed_app, E in Hne; simpl in Hne;
      by rewrite ?app_nil_r in Hne.
  - destruct (Service_lock s); simplify_eq. simpl in Hne.
    rewrite performed_app in Hne. simpl in Hne. by rewrite app_nil_r in Hne.
  - destruct (has_jvmti_events f); [|by simplify_eq].
    destruct (JvmtiDeferredEventQueue.dequeue _) as [[e q]|]; simplify_eq.
    simpl in Hne. rewrite performed_app in Hne. simpl in Hne.
    by rewrite app_nil_r in Hne.
  - by simplify_eq.
  - simplify_eq. simpl in Hne. rewrite performed_app in Hne. simpl in Hne.
    by rewrite app_nil_r in Hne.
  - simplify_eq. unfold perform_if.
    split; [by apply Hfree|]. by destruct (stringtable_work f).
  - simplify_eq. unfold perform_if.
    split; [by apply Hfree|]. by destruct (symboltable_work f).
  - destruct (has_jvmti_events f); [|by simplify_eq].
    destruct (_jvmti_event s); simplify_eq. split; [by apply Hfree|done].
  - by simplify_eq.
  - simplify_eq. unfold perform_if.
    split; [by apply Hfree|]. by destruct (sensors_changed f).
  - simplify_eq. unfold perform_check_if.
    split; [by apply Hfree|].
    by destruct (has_gc_notification_event f),
         (sendNotification_exception env).
  - simplify_eq. unfold perform_check_if.
    split; [by apply Hfree|].
    by destruct (has_dcmd_notification_event f),
         (send_notification_exception env).
  - simplify_eq. unfold perform_if.
    split; [by apply Hfree|]. by destruct (resolved_method_table_work f).
  - simplify_eq. unfold perform_if.
    split; [by apply Hfree|]. by destruct (protection_domain_table_work f).
  - done.
Qed.

(** X3.  The service thread is never stuck inside an iteration: in a
    running system its next statement cannot be executed only when it has
    returned through [CHECK], or when it is about to take the lock (at the
    top of the loop, or coming back from [wait]) and a producer holds it.
    In particular [dequeue] is never called on an empty queue, [post]
    never on a NULL slot, and the thread can always go on while it holds
    the lock. *)
Theorem service_thread_never_stuck (env : WorkerEnv) s w :
  reachable s ->
  vm_error s = None ->
  worker s = Some w ->
  (step (LWorker env) s = None ->
   (exists site, pc w = WReturned site) \/
   ((pc w = WStart \/ pc w = WWait) /\
    exists tid e, Service_lock s = Some (OwnProducer tid e))) /\
  (Service_lock s = Some OwnWorker -> is_Some (step (LWorker env) s)).
Proof.
  intros Hr Hv Hwk. destruct (reachable_inv s Hr) as ((_ & _ & _ & Hw) & _ & _).
  rewrite Hwk in Hw. destruct w as [p f ev]. destruct Hw as [Hlk Hw].
  simpl in *.
  assert (Hstuck : step (LWorker env) s = None ->
            (exists site, p = WReturned site) \/
            ((p = WStart \/ p = WWait) /\
             exists tid e, Service_lock s = Some (OwnProducer tid e))).
  { unfold step. rewrite Hv, Hwk. unfold worker_step. simpl.
    destruct p; simpl in *; try done.
    - destruct (Service_lock s) as [[|tid e]|] eqn:Hl; try done.
      + by pose proof (proj1 Hlk eq_refl).
      + intros _. right. split; [by left|by eauto].
    - by destruct (keep_waiting _).
    - destruct (Service_lock s) as [[|tid e]|] eqn:Hl; try done.
      + by pose proof (proj1 Hlk eq_refl).
      + intros _. right. split; [by right|by eauto].
    - destruct Hw as (_ & _ & Hne).
      destruct (has_jvmti_events f); [|done].
      destruct (_jvmti_service_queue s); [by destruct (Hne eq_refl)|done].
    - destruct (has_jvmti_events f); [|done].
      by destruct Hw as (e & -> & _).
    - intros _. left. by eexists. }
  split; [done|].
  intros Ho. destruct (step (LWorker env) s) eqn:Hs; [by eexists|].
  destruct (Hstuck eq_refl) as [[site ->]|[[->| ->] (tid & e & Hl)]];
    simpl in *; by apply Hlk in Ho.
Qed.

(** X4.  [_jvmti_event] never dangles: whenever it is non-null the service
    thread is between the assignment of the slot and its reset, within an
    iteration whose local for the queue is set, and the slot holds that
    iteration's local event; at the top of the loop, in the wait loop and
    after a return it is NULL. *)
Theorem in_flight_slot_is_the_local s e :
  reachable s ->
  _jvmti_event s = Some e ->
  exists w,
    worker s = Some w /\
    jvmti_event w = Some e /\
    has_jvmti_events (flags w) = true /\
    slot_in_use (pc w) = true /\
    e ∈ dequeued (history s).
Proof.
  intros Hr He. destruct (reachable_inv s Hr) as (Hq & _ & _).
  destruct (reachable_life_inv s Hr) as (Hslot & _).
  destruct (Hslot e He) as (w & Hwk & Hl & Hf).
  exists w. split; [done|]. split; [done|]. split; [done|].
  destruct Hq as (_ & _ & _ & Hw). rewrite Hwk in Hw. destruct Hw as [_ Hw].
  destruct (pc w); simpl in *;
    try (by destruct Hw as (Hn & _); rewrite Hn in He).
  all: split; [done|].
  all: try (rewrite Hf in Hw; destruct Hw as (e' & He' & ->);
            simplify_eq; apply elem_of_app; right; by left).
  destruct Hw as (-> & e' & h' & He' & ->). simplify_eq.
  apply elem_of_app; right; by left.
Qed.


Lemma wait_condition_sensors p f :
  has_pending_requests p = true ->
  wait_condition p f = mkCond false (assign Sensors true f) [Sensors].
Proof. intros H. unfold wait_condition. simpl. by rewrite H. Qed.

Lemma starve_step (l : Label) s s' :
  no_event_flagged s ->
  sensors_pending l ->
  step l s = Some s' ->
  no_event_flagged s' /\
  dequeued (history s') = dequeued (history s) /\
  posted (history s') = posted (history s) /\
  _jvmti_service_queue s `prefix_of` _jvmti_service_queue s'.
Proof.
  unfold no_event_flagged. intros Hn Hl Hs. unfold step in Hs.
  destruct (vm_error s); [done|].
  destruct l as [ie|env|tid e|]; [done| | |].
  - destruct (worker s) as [[p f ev]|]; [|done].
    unfold worker_step in Hs. simpl in *.
    destruct p; simpl in *;
      try (destruct Hn as [Hn|Hn]; [done|]).
    + destruct (Service_lock s); simplify_eq. simpl. hist.
      split; [by right|done].
    + rewrite (wait_condition_sensors
                 (observe env (_jvmti_service_queue s)) f Hl) in Hs.
      simpl in Hs.
      simplify_eq. simpl. hist. split; [by right|done].
    + destruct (Service_lock s); simplify_eq. simpl. hist.
      split; [by right|done].
    + rewrite Hn in Hs. simplify_eq. simpl. split; [by right|done].
    + simplify_eq. simpl. split; [by right|done].
    + simplify_eq. simpl. hist. split; [by right|done].
    + simplify_eq. unfold perform_if.
      destruct (stringtable_work f); simpl; hist; (split; [by right|done]).
    + simplify_eq. unfold perform_if.
      destruct (symboltable_work f); simpl; hist; (split; [by right|done]).
    + rewrite Hn in Hs. simplify_eq. simpl. split; [by right|done].
    + simplify_eq. simpl. split; [by right|done].
    + simplify_eq. unfold perform_if.
      destruct (sensors_changed f); simpl; hist; (split; [by right|done]).
    + simplify_eq. unfold perform_check_if.
      destruct (has_gc_notification_event f),
        (sendNotification_exception env);
        simpl; hist; (split; [by right|done]).
    + simplify_eq. unfold perform_check_if.
      destruct (has_dcmd_notification_event f),
        (send_notification_exception env);
        simpl; hist; (split; [by right|done]).
    + simplify_eq. unfold perform_if.
      destruct (resolved_method_table_work f);
        simpl; hist; (split; [by right|done]).
    + simplify_eq. unfold perform_if.
      destruct (protection_domain_table_work f);
        simpl; hist; (split; [by left|done]).
    + done.
  - destruct (Service_lock s); simplify_eq. simpl. hist. done.
  - destruct (Service_lock s) as [[|tid e]|]; simplify_eq.
    unfold enqueue_body. destruct (ASSERT && _); simpl; hist; [done|].
    repeat split; try done. by eexists.
Qed.

(** X6.  The condition asks the low-memory detector first.  As long as
    it reports pending requests at every evaluation, the service thread
    never takes an event from the queue, however many steps it and the
    producers make: nothing is dequeued or posted, the queue only grows. *)
Theorem sensors_starve_deferred_events (ls : list Label) s s' :
  Forall sensors_pending ls ->
  no_event_flagged s ->
  run ls s = Some s' ->
  dequeued (history s') = dequeued (history s) /\
  posted (history s') = posted (history s) /\
  _jvmti_service_queue s `prefix_of` _jvmti_service_queue s'.
Proof.
  intros Hall. revert s. induction Hall as [|l ls Hl _ IH]; intros s Hn Hr.
  - simpl in Hr. by simplify_eq.
  - simpl in Hr. destruct (step l s) as [s1|] eqn:Hs; [|done].
    destruct (starve_step l s s1 Hn Hl Hs) as (Hn1 & E1 & E2 & E3).
    destruct (IH s1 Hn1 Hr) as (F1 & F2 & F3).
    split; [congruence|]. split; [congruence|]. by etrans.
Qed.

(** X7.  Once the service thread has returned through [CHECK] (which
    happens only at the GC or the diagnostic-command notification), it
    stays returned: whatever happens next, no event is dequeued or posted
    any more, the slot stays NULL, and the events enqueued from then on
    pile up in the queue. *)
Theorem returned_thread_delivers_no_more (ls : list Label) s s' w site :
  reachable s ->
  worker s = Some w ->
  pc w = WReturned site ->
  run ls s = Some s' ->
  (site = GCNotification \/ site = DCmdNotification) /\
  worker s' = Some w /\
  _jvmti_event s' = None /\
  dequeued (history s') = dequeued (history s) /\
  posted (history s') = posted (history s) /\
  _jvmti_service_queue s `prefix_of` _jvmti_service_queue s'.
Proof.
  intros Hr Hw Hp Hrun.
  destruct (reachable_inv s Hr) as ((_ & _ & Hb & Hwi) & _ & _).
  destruct (reachable_life_inv s Hr) as (_ & Hret & _).
  rewrite Hw in Hwi, Hret. destruct w as [p f ev]. simpl in Hp. subst p.
  destruct Hwi as (_ & Hslot & _). simpl in Hret.
  split; [done|].
  assert (Hst : started s <> []) by (intros E; by rewrite (Hb E) in Hw).
  clear Hr Hb Hret. revert s Hw Hslot Hst Hrun.
  induction ls as [|l ls IH]; intros s Hw Hslot Hst Hrun; simpl in Hrun.
  - by simplify_eq.
  - destruct (step l s) as [s1|] eqn:Hs; [|done].
    assert (worker s1 = Some (mkActivation (WReturned site) f ev) /\
            _jvmti_event s1 = None /\ started s1 <> [] /\
            dequeued (history s1) = dequeued (history s) /\
            posted (history s1) = posted (history s) /\
            _jvmti_service_queue s `prefix_of` _jvmti_service_queue s1)
      as (G1 & G2 & G3 & G4 & G5 & G6).
    { unfold step in Hs. destruct (vm_error s); [done|].
      destruct l as [ie|env|tid e|].
      - by destruct (started s).
      - by rewrite Hw in Hs.
      - destruct (Service_lock s); simplify_eq. simpl. hist. done.
      - destruct (Service_lock s) as [[|tid e]|]; simplify_eq.
        unfold enqueue_body. destruct (ASSERT && _); simpl; hist; [done|].
        repeat split; try done. by eexists. }
    destruct (IH s1 G1 G2 G3 Hrun) as (F1 & F2 & F3 & F4 & F5).
    split; [done|]. split; [done|]. split; [congruence|].
    split; [congruence|]. by etrans.
Qed.

Lemma enqueued_tagged_app h1 h2 :
  enqueued_tagged (h1 ++ h2) = enqueued_tagged h1 ++ enqueued_tagged h2.
Proof. apply flat_map_app. Qed.

Lemma enqueued_tagged_events h : map snd (enqueued_tagged h) = enqueued h.
Proof.
  induction h as [|o h IH]; [done|].
  change (o :: h) with ([o] ++ h).
  rewrite enqueued_tagged_app, enqueued_app, map_app, IH.
  by destruct o.
Qed.

Lemma enqueued_tagged_by tid h :
  map snd (List.filter (fun c => bool_decide (fst c = tid)) (enqueued_tagged h))
  = enqueued_by tid h.
Proof.
  induction h as [|o h IH]; [done|].
  change (o :: h) with ([o] ++ h).
  rewrite enqueued_tagged_app, enqueued_by_app, List.filter_app, map_app, IH.
  f_equal. destruct o; try done. simpl.
  destruct (decide (tid0 = tid)) as [->|Hne].
  - by rewrite bool_decide_true.
  - by rewrite bool_decide_false.
Qed.

(** X8.  With several producers: the events dequeued so far are those of
    the first calls of [enqueue], in the order of the calls, and for each
    producer thread the events of its calls that have been dequeued are a
    prefix of the events it enqueued, in its own order of calls. *)
Theorem per_producer_order s tid :
  reachable s ->
  dequeued (history s)
  = map snd (take (length (dequeued (history s)))
               (enqueued_tagged (history s))) /\
  dequeued_of tid (history s) `prefix_of` enqueued_by tid (history s).
Proof.
  intros Hr. destruct (reachable_inv s Hr) as ((H1 & _) & _ & _).
  split.
  - rewrite <- firstn_map, enqueued_tagged_events, H1.
    by rewrite take_app_length.
  - unfold dequeued_of. rewrite <- enqueued_tagged_by.
    rewrite <- (take_drop (length (dequeued (history s)))
                  (enqueued_tagged (history s))) at 2.
    rewrite List.filter_app, map_app. by eexists.
Qed.

(** X9.  The evaluation of the condition, made with the lock held,
    leads to [wait] exactly when the queue is empty and the seven other
    predicates answer [false]; [wait] releases the lock and leaves every
    local [false].  Otherwise the thread keeps the lock, with exactly the
    local of a predicate that answered [true] set.  The queue is not
    touched by the evaluation. *)
Theorem waits_exactly_when_no_work (env : WorkerEnv) s w :
  reachable s ->
  vm_error s = None ->
  worker s = Some w ->
  pc w = WCond ->
  exists s' w',
    step (LWorker env) s = Some s' /\
    worker s' = Some w' /\
    _jvmti_service_queue s' = _jvmti_service_queue s /\
    Service_lock s = Some OwnWorker /\
    ((pc w' = WWait /\ Service_lock s' = None /\ flags w' = initial_flags /\
      _jvmti_service_queue s = [] /\
      forall src, answer (observe env (_jvmti_service_queue s)) src = false)
     \/
     (pc w' = WDequeue /\ Service_lock s' = Some OwnWorker /\
      exists src,
        flags w' = only src /\
        answer (observe env (_jvmti_service_queue s)) src = true)).
Proof.
  intros Hr Hv Hwk Hpc.
  destruct (reachable_inv s Hr) as ((_ & _ & _ & Hw) & Hf & _).
  unfold flags_inv in Hf. rewrite Hwk in Hw, Hf.
  destruct w as [p f ev]. simpl in *. subst p.
  destruct Hw as [Hlk _]. simpl in *. subst f.
  assert (Ho : Service_lock s = Some OwnWorker) by (by apply Hlk).
  unfold step. rewrite Hv, Hwk. unfold worker_step. simpl.
  pose proof (wait_condition_keep_waiting
                (observe env (_jvmti_service_queue s)) initial_flags) as Hk.
  pose proof (wait_condition_exit
                (observe env (_jvmti_service_queue s))) as He.
  destruct (keep_waiting _).
  - destruct (Hk eq_refl) as [Hall Hfl].
    eexists _, _. split; [done|]. simpl. split; [done|]. split; [done|].
    split; [done|]. left. rewrite Hfl. repeat split; try done.
    specialize (Hall JvmtiEvents). simpl in Hall.
    by destruct (_jvmti_service_queue s).
  - destruct (He eq_refl) as (src & Ha & Hc & _).
    eexists _, _. split; [done|]. simpl. split; [done|]. split; [done|].
    split; [done|]. right. repeat split; try done. by exists src.
Qed.

Lemma run_cons (l : Label) (ls : list Label) s :
  run (l :: ls) s
  = match step l s with Some s' => run ls s' | None => None end.
Proof. reflexivity. Qed.

Ltac run_step :=
  rewrite run_cons;
  match goal with
  | |- context [step ?l ?s] =>
      let r := eval cbv -[app] in (step l s) in
      change (step l s) with r; cbv beta iota
  end.

Lemma iteration_delivers_head (env : WorkerEnv) s (e : Event) (q : list Event) :
  idle_at_top s ->
  _jvmti_service_queue s = e :: q ->
  has_pending_requests (answers env) = false ->
  exists s',
    run (replicate 14 (LWorker env)) s = Some s' /\
    idle_at_top s' /\
    _instance s' = _instance s /\
    _jvmti_service_queue s' = q /\
    history s'
    = history s ++ [OIteration; OLock OwnWorker; OPoll Sensors false;
                    OPoll JvmtiEvents true; ODequeue e; OUnlock OwnWorker;
                    OPost e].
Proof.
  intros Hidle Hq Hs.
  destruct s as [i tl st sl qu lk wk ve h]. unfold idle_at_top in Hidle.
  simpl in Hidle, Hq. destruct Hidle as (-> & -> & -> & f & ev & ->). subst qu.
  destruct env as [[a1 a2 a3 a4 a5 a6 a7 a8] x1 x2]. simpl in Hs. subst a1.
  change (replicate 14 ?l) with [l; l; l; l; l; l; l; l; l; l; l; l; l; l].
  do 14 run_step.
  eexists. split; [reflexivity|]. cbn.
  split; [|split; [done|split; [done|]]].
  - repeat split. by eexists _, _.
  - by rewrite <- !app_assoc.
Qed.

Lemma drain_from_top (env : WorkerEnv) (q : list Event) : forall s,
  idle_at_top s ->
  _jvmti_service_queue s = q ->
  has_pending_requests (answers env) = false ->
  exists s',
    run (replicate (14 * length q) (LWorker env)) s = Some s' /\
    idle_at_top s' /\
    _instance s' = _instance s /\
    _jvmti_service_queue s' = [] /\
    enqueued (history s') = enqueued (history s) /\
    dequeued (history s') = dequeued (history s) ++ q /\
    posted (history s') = posted (history s) ++ q.
Proof.
  induction q as [|e q IH]; intros s Hidle Hq Hs.
  - exists s. simpl. by rewrite !app_nil_r.
  - destruct (iteration_delivers_head env s e q Hidle Hq Hs)
      as (s1 & Hr1 & Hidle1 & Hi1 & Hq1 & Hh1).
    destruct (IH s1 Hidle1 Hq1 Hs)
      as (s2 & Hr2 & Hidle2 & Hi2 & Hq2 & He2 & Hd2 & Hp2).
    exists s2.
    replace (14 * length (e :: q)) with (14 + 14 * length q) by (simpl; lia).
    rewrite replicate_add, run_app, Hr1, Hr2.
    rewrite Hi2, Hi1, He2, Hd2, Hp2, Hh1.
    rewrite enqueued_app, dequeued_app, posted_app. simpl.
    by rewrite app_nil_r, <- !app_assoc.
Qed.

(** X10.  Left alone, the service thread empties the queue.  From the
    top of the loop with the lock free, when the low-memory detector
    reports nothing, it needs one iteration of the loop for each queued
    event (fourteen statements of the model); it posts the queued events
    in queue order and is back at the top of the loop with the queue
    empty and the slot NULL: every event enqueued so far has been
    posted. *)
Theorem service_thread_drains_queue (env : WorkerEnv) s :
  reachable s ->
  idle_at_top s ->
  has_pending_requests (answers env) = false ->
  exists s',
    run (replicate (14 * length (_jvmti_service_queue s)) (LWorker env)) s
    = Some s' /\
    idle_at_top s' /\
    _jvmti_service_queue s' = [] /\
    posted (history s') = posted (history s) ++ _jvmti_service_queue s /\
    posted (history s') = enqueued (history s').
Proof.
  intros Hr Hidle Hs.
  destruct (drain_from_top env _ s Hidle eq_refl Hs)
    as (s' & Hrun & Hidle' & _ & Hq' & He' & _ & Hp').
  exists s'. split; [done|]. split; [done|]. split; [done|]. split; [done|].
  rewrite Hp', He'.
  destruct (reachable_inv s Hr) as [(Henq & _ & _ & Hw) _].
  destruct Hidle as (_ & _ & _ & f & ev & Ew). rewrite Ew in Hw.
  destruct Hw as [_ [_ Hdp]]. simpl in Hdp. by rewrite Henq, Hdp.
Qed.


Lemma monitor_app h (l : list Obs) :
  monitor (h ++ l) = fold_left monitor_next l (monitor h).
Proof. apply fold_left_app. Qed.

Lemma monitor_poll_obs (p : Preds) (srcs : list Source) :
  fold_left monitor_next (poll_obs p srcs) (Some (Some HWorker))
  = Some (Some HWorker).
Proof. induction srcs as [|src srcs IH]; [done|apply IH]. Qed.

Ltac mon Hm Hlk :=
  simplify_eq; unfold perform_if, perform_check_if;
  repeat match goal with
         | |- context [if ?b then _ else _] => destruct b
         end;
  simpl; rewrite ?monitor_app, ?Hm;
  match goal with
  | |- context [Service_lock ?s] =>
      destruct (Service_lock s) as [[|?tid ?e]|] eqn:?;
        simpl; rewrite ?Nat.eqb_refl; try done;
        try (by pose proof (proj1 Hlk eq_refl));
        try (by pose proof (proj2 Hlk eq_refl))
  end.

Lemma monitor_step_inv (l : Label) s s' :
  queue_inv s ->
  monitor (history s) = Some (holder <$> Service_lock s) ->
  step l s = Some s' ->
  monitor (history s') = Some (holder <$> Service_lock s').
Proof.
  intros (_ & _ & Hb & Hw) Hm Hs. unfold step in Hs.
  destruct (vm_error s); [done|].
  destruct l as [ie|env|tid e|].
  - destruct (started s); [|done].
    destruct (initialize ie s) as [s1|f] eqn:Hi; simplify_eq; [|done].
    by apply initialize_returned in Hi as (t & -> & _).
  - destruct (worker s) as [[p f ev]|]; [|done].
    destruct Hw as [Hlk _]. simpl in Hlk.
    unfold worker_step in Hs. simpl in Hs.
    destruct p; simpl in Hlk, Hs.
    + destruct (Service_lock s) eqn:El; simplify_eq.
      simpl. by rewrite monitor_app, Hm.
    + rewrite (proj2 Hlk eq_refl) in Hm.
      case_match; simplify_eq; simpl;
        rewrite ?app_assoc, !monitor_app, Hm; simpl;
        by rewrite monitor_poll_obs, ?(proj2 Hlk eq_refl).
    + destruct (Service_lock s) eqn:El; simplify_eq.
      simpl. by rewrite monitor_app, Hm.
    + rewrite (proj2 Hlk eq_refl) in Hm.
      destruct (has_jvmti_events f).
      * destruct (JvmtiDeferredEventQueue.dequeue (_jvmti_service_queue s))
          as [[e q]|]; simplify_eq.
        simpl. by rewrite monitor_app, Hm, (proj2 Hlk eq_refl).
      * simplify_eq. simpl. by rewrite Hm, (proj2 Hlk eq_refl).
    + mon Hm Hlk.
    + mon Hm Hlk.
    + mon Hm Hlk.
    + mon Hm Hlk.
    + destruct (has_jvmti_events f).
      * destruct (_jvmti_event s); mon Hm Hlk.
      * mon Hm Hlk.
    + mon Hm Hlk.
    + mon Hm Hlk.
    + mon Hm Hlk.
    + mon Hm Hlk.
    + mon Hm Hlk.
    + mon Hm Hlk.
    + done.
  - destruct (Service_lock s) eqn:El; simplify_eq.
    simpl. by rewrite monitor_app, Hm.
  - destruct (Service_lock s) as [[|tid e]|] eqn:El; simplify_eq.
    unfold enqueue_body.
    destruct (ASSERT && _); simpl; rewrite ?monitor_app, ?El, Hm; simpl;
      rewrite ?Nat.eqb_refl; simpl; by rewrite ?Nat.eqb_refl.
Qed.

(** X12.  The trace of every run keeps the discipline of the monitor
    [Service_lock]: the lock is taken only when free and released only by
    its holder, so two threads never hold it at once; [enqueue] and
    [notify_all] are called by the producer that holds the lock; the
    predicates of the condition, [wait] and [dequeue] are called by the
    service thread while it holds the lock; the service thread makes its
    work calls, among them [post], and returns while it does not hold the
    lock.  The holder computed from the trace is the holder of the
    lock. *)
Theorem monitor_discipline s :
  reachable s ->
  monitor (history s) = Some (holder <$> Service_lock s).
Proof.
  intros [ls Hr].
  cut (queue_inv s /\ monitor (history s) = Some (holder <$> Service_lock s));
    [by intros []|].
  apply (run_invariant
           (fun s => queue_inv s /\
                     monitor (history s) = Some (holder <$> Service_lock s)))
    with ls boot; [|split; [apply queue_inv_boot|done]|done].
  intros l s1 s2 [Hq Hm] Hs. split.
  - by apply queue_inv_step with l s1.
  - by apply monitor_step_inv with l s1.
Qed.


End Proofs.

Lemma demo_enqueued_reachable : reachable (debug_build := true) demo_enqueued.
Proof. exists demo_enqueued_labels. vm_compute. reflexivity. Defined.

Lemma demo_in_flight_reachable : reachable (debug_build := true) demo_in_flight.
Proof. exists demo_in_flight_labels. vm_compute. reflexivity. Defined.

Lemma demo_delivered_reachable : reachable (debug_build := true) demo_delivered.
Proof. exists demo_delivered_labels. vm_compute. reflexivity. Defined.

Lemma fifo_delivery_order_witness :
  reachable (debug_build := true) demo_delivered /\
  enqueued (history demo_delivered) = [10; 20] /\
  enqueued (history demo_delivered)
  = dequeued (history demo_delivered) ++ _jvmti_service_queue demo_delivered /\
  posted (history demo_delivered) `prefix_of` dequeued (history demo_delivered).
Proof.
  split; [exact demo_delivered_reachable|]. split; [reflexivity|].
  destruct (fifo_delivery_order (debug_build := true) demo_delivered demo_delivered_reachable)
    as (_ & H2 & H3 & _).
  split; [exact H2|exact H3].
Defined.

Lemma no_loss_no_duplication_witness :
  reachable (debug_build := true) demo_in_flight /\
  enqueued (history demo_in_flight)
  ≡ₚ dequeued (history demo_in_flight) ++ _jvmti_service_queue demo_in_flight.
Proof.
  split; [exact demo_in_flight_reachable|].
  exact (proj1 (no_loss_no_duplication (debug_build := true) demo_in_flight
                  demo_in_flight_reachable)).
Defined.

Lemma oops_do_visits_pending_once_witness :
  reachable (debug_build := true) demo_in_flight /\
  Service_lock demo_in_flight = None /\
  pending demo_in_flight = [10; 20] /\
  exists visited,
    oops_do (Some tt) demo_in_flight = Some visited /\
    visited
    = option_list (_jvmti_event demo_in_flight)
      ++ _jvmti_service_queue demo_in_flight /\
    (visited = pending demo_in_flight \/
     exists e w,
       worker demo_in_flight = Some w /\ pc w = WReset /\
       last (posted (history demo_in_flight)) = Some e /\
       visited = e :: pending demo_in_flight).
Proof.
  split; [exact demo_in_flight_reachable|]. split; [reflexivity|].
  split; [reflexivity|].
  exact (proj2 (oops_do_visits_pending_once (debug_build := true) tt demo_in_flight
                  demo_in_flight_reachable eq_refl)).
Defined.

Lemma dispatch_priority_order_witness :
  vm_error demo_dispatch = None /\
  worker demo_dispatch
  = Some (mkActivation WStringTable demo_all_flags (Some 7)) /\
  (has_jvmti_events demo_all_flags = true ->
   is_Some (_jvmti_event demo_dispatch)) /\
  exists s' w',
    run_worker (debug_build := true) 9 quiet demo_dispatch = Some s' /\
    worker s' = Some w' /\
    exit_pc quiet demo_all_flags (pc w') /\
    history s'
    = history demo_dispatch ++ dispatch_obs (Some 7) demo_all_flags (pc w').
Proof.
  assert (Hj : has_jvmti_events demo_all_flags = true ->
               is_Some (_jvmti_event demo_dispatch))
    by (intros _; exists 7; reflexivity).
  split; [reflexivity|]. split; [reflexivity|]. split; [exact Hj|].
  destruct (dispatch_priority_order (debug_build := true) quiet demo_dispatch
              (mkActivation WStringTable demo_all_flags (Some 7))
              eq_refl eq_refl eq_refl Hj)
    as (s' & w' & H1 & H2 & _ & H4 & H5 & _).
  exists s', w'. split; [exact H1|]. split; [exact H2|].
  split; [exact H4|exact H5].
Defined.

Lemma single_dispatch_per_iteration_witness :
  reachable (debug_build := true) demo_delivered /\
  worker demo_delivered
  = Some (mkActivation WStart (only JvmtiEvents) (Some 10)) /\
  performed (current_iteration (history demo_delivered)) = [JvmtiEvents] /\
  NoDup (performed (current_iteration (history demo_delivered))) /\
  polls_precede_performs (current_iteration (history demo_delivered)) = true.
Proof.
  split; [exact demo_delivered_reachable|]. split; [reflexivity|].
  split; [reflexivity|].
  destruct (single_dispatch_per_iteration (debug_build := true) demo_delivered
              (mkActivation WStart (only JvmtiEvents) (Some 10))
              demo_delivered_reachable eq_refl) as (H1 & _ & H3).
  split; [exact H1|exact H3].
Defined.

Lemma enqueue_deferred_event_contract_witness :
  vm_error (@boot nat) = None /\ Service_lock (@boot nat) = None /\
  _instance (@boot nat) = None /\
  (exists s',
     enqueue_deferred_event (debug_build := true) 1 10 boot = Some s' /\
     vm_error s'
     = Some (AssertionFailure
               "cannot enqueue events before the service thread runs") /\
     _jvmti_service_queue s' = []) /\
  vm_error demo_enqueued = None /\ Service_lock demo_enqueued = None /\
  is_Some (_instance demo_enqueued) /\
  (exists s',
     enqueue_deferred_event (debug_build := true) 3 30 demo_enqueued = Some s' /\
     vm_error s' = None /\
     _jvmti_service_queue s' = [10; 20; 30]).
Proof.
  split; [reflexivity|]. split; [reflexivity|]. split; [reflexivity|].
  split.
  - destruct (proj1 (enqueue_deferred_event_contract (debug_build := true) 1 10 boot
                       eq_refl eq_refl) eq_refl eq_refl)
      as (s' & H1 & H2 & H3 & _).
    exists s'. split; [exact H1|]. split; [exact H2|exact H3].
  - split; [reflexivity|]. split; [reflexivity|].
    assert (Hi : is_Some (_instance demo_enqueued))
      by (eexists; reflexivity).
    split; [exact Hi|].
    destruct (proj1 (proj2 (enqueue_deferred_event_contract (debug_build := true) 3 30
                              demo_enqueued eq_refl eq_refl)) Hi)
      as (s' & H1 & H2 & _ & H4 & _).
    exists s'. split; [exact H1|]. split; [exact H2|exact H4].
Defined.

Lemma initialize_thread_creation_failure_witness :
  create_from_str_ok failing_init = true /\
  construct_new_instance_ok failing_init = true /\
  (new_ServiceThread failing_init = None \/
   exists t, new_ServiceThread failing_init = Some t /\ osthread t = None) /\
  initialize failing_init (@boot nat)
  = InitStopped (VmExitDuringInitialization "java.lang.OutOfMemoryError"
                   "unable to create native thread").
Proof.
  assert (H3 : new_ServiceThread failing_init = None \/
               exists t, new_ServiceThread failing_init = Some t /\
                         osthread t = None)
    by (right; eexists; split; reflexivity).
  split; [reflexivity|]. split; [reflexivity|]. split; [exact H3|].
  exact (proj1 (initialize_thread_creation_failure (debug_build := true) failing_init boot
                  eq_refl eq_refl H3)).
Defined.

Lemma initialize_has_no_reentry_guard_witness :
  is_Some (_instance demo_enqueued) /\
  create_from_str_ok second_init = true /\
  construct_new_instance_ok second_init = true /\
  new_ServiceThread second_init = Some second_thread /\
  is_Some (osthread second_thread) /\
  exists t' s',
    initialize second_init demo_enqueued = InitReturned s' /\
    thread_id t' = 8 /\
    _instance s' = Some t' /\
    started s' = started demo_enqueued ++ [t'].
Proof.
  assert (H4 : is_Some (osthread second_thread)) by (eexists; reflexivity).
  split; [eexists; reflexivity|].
  split; [reflexivity|]. split; [reflexivity|]. split; [reflexivity|].
  split; [exact H4|].
  destruct (initialize_has_no_reentry_guard second_init demo_enqueued
              second_thread eq_refl eq_refl eq_refl H4)
    as (t' & s' & H5 & H6 & _ & _ & H7 & _ & H8 & _).
  exists t', s'. split; [exact H5|]. split; [exact H6|].
  split; [exact H7|exact H8].
Defined.

Lemma one_work_kind_per_iteration_witness :
  reachable (debug_build := true) demo_in_flight /\
  worker demo_in_flight
  = Some (mkActivation WStringTable (only JvmtiEvents) (Some 10)) /\
  count_true (all_flags (only JvmtiEvents)) = 1 /\
  length (performed (current_iteration (history demo_in_flight))) <= 1.
Proof.
  split; [exact demo_in_flight_reachable|]. split; [reflexivity|].
  destruct (one_work_kind_per_iteration (debug_build := true) demo_in_flight
              (mkActivation WStringTable (only JvmtiEvents) (Some 10))
              demo_in_flight_reachable eq_refl) as (_ & H2 & H3 & _).
  split; [exact (proj1 (H2 eq_refl))|exact H3].
Defined.

(** ** Where the code departs from the specification *)

(** C3 as stated fails: a call of [oops_do] whose [cf] is NULL visits no
    deferred event, although event 10 (and 20) has been enqueued and not
    delivered. *)
Lemma oops_do_null_closure_visits_nothing :
  reachable (debug_build := true) demo_enqueued /\
  enqueued (history demo_enqueued) = [10; 20] /\
  posted (history demo_enqueued) = [] /\
  Service_lock demo_enqueued = None /\
  oops_do (@None unit) demo_enqueued = Some [].
Proof.
  split; [exact demo_enqueued_reachable|]. repeat split; reflexivity.
Qed.

(** C4 as stated fails: with the sensors pending and the queue non-empty,
    one evaluation of the condition calls the first predicate only, and the
    local for the queue stays [false]. *)
Lemma wait_condition_is_not_a_full_snapshot :
  polled (wait_condition
            (mkPreds true true false false false false false false)
            initial_flags) = [Sensors] /\
  has_events (mkPreds true true false false false false false false) = true /\
  has_jvmti_events
    (cond_flags
       (wait_condition
          (mkPreds true true false false false false false false)
          initial_flags)) = false.
Proof. repeat split; reflexivity. Qed.

(** C9 as stated fails: a second call of [initialize], made when the
    first has installed the instance, returns normally in a debug build
    as in any other; two service threads have been started. *)
Lemma second_initialize_starts_second_thread :
  _instance demo_enqueued
  = Some (mkJavaThread 7 (Some 1)
            (Some (mkThreadOop "Service Thread" 7 NearMaxPriority true))) /\
  exists s',
    initialize second_init demo_enqueued = InitReturned s' /\
    vm_error s' = None /\
    map thread_id (started s') = [7; 8] /\
    option_map thread_id (_instance s') = Some 8.
Proof.
  split; [reflexivity|]. eexists. split; [reflexivity|].
  repeat split; reflexivity.
Qed.

(** ** The scan and the slot *)

Lemma oops_do_interleaved_same {Event CodeBlobClosure : Type}
    (cf : option CodeBlobClosure) (s : @State Event) :
  oops_do_interleaved cf s s = oops_do cf s.
Proof. reflexivity. Qed.

(** The property of the root scan needs the scan to be one step.  [oops_do] reads the
    slot before it takes the lock: if that read happens while the service
    thread is between the dequeue and the assignment of the slot, and the
    lock is acquired after the service thread has released it, event 10 is
    pending throughout and is not visited. *)
Example slot_read_before_lock_misses_event :
  reachable (debug_build := true) demo_dequeued /\
  run (debug_build := true) (replicate 2 (LWorker quiet)) demo_dequeued
  = Some demo_in_flight /\
  pending demo_dequeued = [10; 20] /\
  pending demo_in_flight = [10; 20] /\
  oops_do_interleaved (Some tt) demo_dequeued demo_in_flight = Some [20].
Proof.
  split; [exists demo_dequeued_labels; vm_compute; reflexivity|].
  repeat split; reflexivity.
Qed.

(** ** The further properties on the concrete runs *)

Lemma demo_dequeued_reachable : reachable (debug_build := true) demo_dequeued.
Proof. exists demo_dequeued_labels. vm_compute. reflexivity. Defined.

Lemma demo_at_cond_reachable : reachable (debug_build := true) demo_at_cond.
Proof. exists demo_at_cond_labels. vm_compute. reflexivity. Defined.


Lemma demo_at_post_reachable : reachable (debug_build := true) demo_at_post.
Proof. exists demo_at_post_labels. vm_compute. reflexivity. Defined.

Lemma demo_returned_reachable : reachable (debug_build := true) demo_returned.
Proof. exists demo_returned_labels. vm_compute. reflexivity. Defined.


Lemma demo_idle_at_top : idle_at_top demo_enqueued.
Proof.
  split; [reflexivity|]. split; [reflexivity|]. split; [reflexivity|].
  exists initial_flags, None. reflexivity.
Defined.


Lemma work_calls_outside_lock_witness :
  reachable (debug_build := true) demo_at_post /\
  step (debug_build := true) (LWorker quiet) demo_at_post = Some demo_posted /\
  performed (history demo_at_post) = [] /\
  performed (history demo_posted) = [JvmtiEvents] /\
  Service_lock demo_at_post <> Some OwnWorker /\
  Service_lock demo_posted = Service_lock demo_at_post /\
  _jvmti_service_queue demo_posted = _jvmti_service_queue demo_at_post.
Proof.
  split; [exact demo_at_post_reachable|]. split; [reflexivity|].
  split; [reflexivity|]. split; [reflexivity|].
  apply (work_calls_outside_lock (debug_build := true) quiet demo_at_post
           demo_posted demo_at_post_reachable eq_refl).
  vm_compute. discriminate.
Defined.

Lemma service_thread_never_stuck_witness :
  reachable (debug_build := true) demo_dequeued /\
  vm_error demo_dequeued = None /\
  worker demo_dequeued
  = Some (mkActivation WSetSlot (only JvmtiEvents) (Some 10)) /\
  Service_lock demo_dequeued = Some OwnWorker /\
  is_Some (step (debug_build := true) (LWorker quiet) demo_dequeued).
Proof.
  split; [exact demo_dequeued_reachable|]. split; [reflexivity|].
  split; [reflexivity|]. split; [reflexivity|].
  exact (proj2 (service_thread_never_stuck (debug_build := true) quiet
                  demo_dequeued
                  (mkActivation WSetSlot (only JvmtiEvents) (Some 10))
                  demo_dequeued_reachable eq_refl eq_refl) eq_refl).
Defined.

Lemma sensors_starve_deferred_events_witness :
  Forall sensors_pending demo_starving_labels /\
  no_event_flagged demo_enqueued /\
  run (debug_build := true) demo_starving_labels demo_enqueued
  = Some demo_starved /\
  _jvmti_service_queue demo_enqueued = [10; 20] /\
  _jvmti_service_queue demo_starved = [10; 20; 30] /\
  dequeued (history demo_starved) = dequeued (history demo_enqueued) /\
  posted (history demo_starved) = posted (history demo_enqueued) /\
  _jvmti_service_queue demo_enqueued
  `prefix_of` _jvmti_service_queue demo_starved.
Proof.
  assert (H1 : Forall sensors_pending demo_starving_labels)
    by (repeat constructor).
  assert (H2 : no_event_flagged demo_enqueued) by (left; reflexivity).
  split; [exact H1|]. split; [exact H2|]. split; [reflexivity|].
  split; [reflexivity|]. split; [reflexivity|].
  exact (sensors_starve_deferred_events (debug_build := true)
           demo_starving_labels demo_enqueued demo_starved H1 H2 eq_refl).
Defined.

Lemma in_flight_slot_is_the_local_witness :
  reachable (debug_build := true) demo_in_flight /\
  _jvmti_event demo_in_flight = Some 10 /\
  exists w,
    worker demo_in_flight = Some w /\
    jvmti_event w = Some 10 /\
    has_jvmti_events (flags w) = true /\
    slot_in_use (pc w) = true /\
    10 ∈ dequeued (history demo_in_flight).
Proof.
  split; [exact demo_in_flight_reachable|]. split; [reflexivity|].
  exact (in_flight_slot_is_the_local (debug_build := true) demo_in_flight 10
           demo_in_flight_reachable eq_refl).
Defined.


Lemma returned_thread_delivers_no_more_witness :
  reachable (debug_build := true) demo_returned /\
  worker demo_returned
  = Some (mkActivation (WReturned GCNotification) (only GCNotification) None) /\
  run (debug_build := true) [LEnter 1 10; LEnqueue] demo_returned
  = Some demo_after_return /\
  _jvmti_service_queue demo_after_return = [10] /\
  _jvmti_event demo_after_return = None /\
  dequeued (history demo_after_return) = dequeued (history demo_returned) /\
  posted (history demo_after_return) = posted (history demo_returned).
Proof.
  split; [exact demo_returned_reachable|]. split; [reflexivity|].
  split; [reflexivity|]. split; [reflexivity|].
  destruct (returned_thread_delivers_no_more (debug_build := true)
              [LEnter 1 10; LEnqueue] demo_returned demo_after_return
              (mkActivation (WReturned GCNotification) (only GCNotification)
                 None)
              GCNotification demo_returned_reachable eq_refl eq_refl eq_refl)
    as (_ & _ & H3 & H4 & H5 & _).
  split; [exact H3|]. split; [exact H4|exact H5].
Defined.

Lemma per_producer_order_witness :
  reachable (debug_build := true) demo_delivered /\
  enqueued_tagged (history demo_delivered) = [(1, 10); (2, 20)] /\
  dequeued (history demo_delivered) = [10] /\
  dequeued_of 1 (history demo_delivered)
  `prefix_of` enqueued_by 1 (history demo_delivered).
Proof.
  split; [exact demo_delivered_reachable|]. split; [reflexivity|].
  split; [reflexivity|].
  exact (proj2 (per_producer_order (debug_build := true) demo_delivered 1
                  demo_delivered_reachable)).
Defined.


Lemma service_thread_drains_queue_witness :
  reachable (debug_build := true) demo_enqueued /\
  idle_at_top demo_enqueued /\
  _jvmti_service_queue demo_enqueued = [10; 20] /\
  exists s',
    run (debug_build := true) (replicate 28 (LWorker quiet)) demo_enqueued
    = Some s' /\
    idle_at_top s' /\
    _jvmti_service_queue s' = [] /\
    posted (history s') = [10; 20] /\
    posted (history s') = enqueued (history s').
Proof.
  split; [exact demo_enqueued_reachable|]. split; [exact demo_idle_at_top|].
  split; [reflexivity|].
  destruct (service_thread_drains_queue (debug_build := true) quiet
              demo_enqueued demo_enqueued_reachable demo_idle_at_top eq_refl)
    as (s' & H1 & H2 & H3 & H4 & H5).
  exists s'. split; [exact H1|]. split; [exact H2|]. split; [exact H3|].
  split; [exact H4|exact H5].
Defined.

Lemma waits_exactly_when_no_work_witness :
  reachable (debug_build := true) demo_at_cond /\
  vm_error demo_at_cond = None /\
  worker demo_at_cond = Some (mkActivation WCond initial_flags None) /\
  exists s' w',
    step (debug_build := true) (LWorker quiet) demo_at_cond = Some s' /\
    worker s' = Some w' /\
    _jvmti_service_queue s' = _jvmti_service_queue demo_at_cond /\
    Service_lock demo_at_cond = Some OwnWorker.
Proof.
  split; [exact demo_at_cond_reachable|]. split; [reflexivity|].
  split; [reflexivity|].
  destruct (waits_exactly_when_no_work (debug_build := true) quiet demo_at_cond
              (mkActivation WCond initial_flags None)
              demo_at_cond_reachable eq_refl eq_refl eq_refl)
    as (s' & w' & H1 & H2 & H3 & H4 & _).
  exists s', w'. split; [exact H1|]. split; [exact H2|].
  split; [exact H3|exact H4].
Defined.

Lemma monitor_discipline_witness :
  reachable (debug_build := true) demo_dequeued /\
  Service_lock demo_dequeued = Some OwnWorker /\
  monitor (history demo_dequeued) = Some (Some HWorker).
Proof.
  split; [exact demo_dequeued_reachable|]. split; [reflexivity|].
  exact (monitor_discipline (debug_build := true) demo_dequeued
           demo_dequeued_reachable).
Defined.

